(** * mturk_dash: the retrieval-and-extraction pipeline of the MTurk dashboard

    A shallow embedding of [src/mturk_dash.py]: the cursor paginator
    ([paginate]), the answer decoder ([parse_answer]), the record normaliser
    ([parse_assignment]), the retrieval loop ([retrieve_assignments]) and the
    two pandas aggregations ([to_hit_summary] and the [worker_df] expression).

    Python exceptions are values of [exn] carried by [result]; the remote
    service is an explicit world that every listing call transforms; Python
    dicts are insertion-ordered association lists. *)

From Stdlib Require Import ZArith Lia SpecFloat Ascii.
From stdpp Require Import gmap strings list sorting.

Local Open Scope Z_scope.

(** ** Exceptions *)

(** The exception classes the modelled code can meet.  All of them derive
    from Python's [Exception], so [except Exception] catches every one. *)
Inductive exn : Type :=
| TypeError | ValueError | KeyError | IndexError | AssertionError
| ExpatError | JSONDecodeError.

Inductive result (A : Type) : Type :=
| Return (a : A)
| Raise (e : exn).
Arguments Return {A} a.
Arguments Raise {A} e.

Global Instance result_ret : MRet result := λ A, Return.
Global Instance result_bind : MBind result := λ A B k m,
  match m with
  | Return a => k a
  | Raise e => Raise e
  end.

(** [d[k]] on an optional field: [KeyError] when the key is absent. *)
Definition subscript {A} (field : option A) : result A :=
  match field with
  | Some a => Return a
  | None => Raise KeyError
  end.

(** ** Python truthiness of the two values [paginate] tests *)

(** [resp.get('NextToken')]: [None] when the key is absent; both [None] and
    the empty string are falsy. *)
Definition truthy_token (t : option string) : bool :=
  match t with
  | Some s => negb (String.eqb s "")
  | None => false
  end.

Definition truthy_list {A} (l : list A) : bool :=
  match l with
  | [] => false
  | _ :: _ => true
  end.

(** ** Cursor paginator *)

Module Paginator.
Section paginate.
(** [World] is the state of the remote service, [Resp] a raw response. *)
Context {World Resp Item : Type}.

(** [operation(MaxResults=100, **kwargs)] when the cursor is [None],
    [operation(MaxResults=100, NextToken=t, **kwargs)] when it is [Some t].
    The page size 100 and [kwargs] are the same at every call.  A call is
    taken to return: an exception of the service leaves [paginate] at once
    and is not part of this model. *)
Variable operation : option string → World → Resp * World.
Variable result_fn : Resp → list Item.
(** [resp.get('NextToken')] *)
Variable NextToken : Resp → option string.

(** [max_results is not None and len(results) >= max_results] *)
Definition reached (max_results : option Z) (results : list Item) : bool :=
  match max_results with
  | Some m => Z.of_nat (length results) >=? m
  | None => false
  end.

(** The [while] loop.  [fuel] bounds the number of iterations; [trace]
    is the list of responses received so far, one per call issued.
    In the body, [len(results)/max_results] raises [TypeError] when
    [max_results] is [None]; otherwise the guard above it has established
    [0 <= len(results) < max_results], so the division is defined, and
    the progress value it feeds does not affect control flow. *)
Fixpoint paginate_loop (fuel : nat) (max_results : option Z)
    (results local_results : list Item) (next_token : option string)
    (trace : list Resp) (w : World)
    : option (result (list Item) * list Resp * World) :=
  if truthy_list local_results && truthy_token next_token then
    if reached max_results results then Some (Return results, trace, w)
    else
      match fuel with
      | O => None
      | S fuel' =>
          let '(resp, w') := operation next_token w in
          let local_results' := result_fn resp in
          let next_token' := NextToken resp in
          let results' := results ++ local_results' in
          match max_results with
          | None => Some (Raise TypeError, trace ++ [resp], w')
          | Some _ =>
              paginate_loop fuel' max_results results' local_results'
                next_token' (trace ++ [resp]) w'
          end
      end
  else Some (Return results, trace, w).

(** [None]: the loop was still running when [fuel] ran out. *)
Definition paginate (fuel : nat) (max_results : option Z) (w : World)
    : option (result (list Item) * list Resp * World) :=
  let '(resp, w1) := operation None w in
  let local_results := result_fn resp in
  paginate_loop fuel max_results local_results local_results
    (NextToken resp) [resp] w1.

(** The pages the service hands out along its own cursor chain: the
    response to a first call, then to a call with that response's cursor,
    and so on for [n] calls, whatever the pages hold. *)
Fixpoint service_run (n : nat) (tok : option string) (w : World)
    : list Resp :=
  match n with
  | O => []
  | S n' =>
      let '(resp, w') := operation tok w in
      resp :: service_run n' (NextToken resp) w'
  end.

(** A page after which the [while] condition is false. *)
Definition stopping (r : Resp) : bool :=
  negb (truthy_list (result_fn r) && truthy_token (NextToken r)).

Definition items_of (pages : list Resp) : list Item :=
  concat (map result_fn pages).

End paginate.
End Paginator.

(** ** Python values *)

(** A Python [str] is a Rocq [string], one [ascii] per character (code
    points below 256); comparison of strings is then comparison of code
    points, as in Python.  A Python [float] is an IEEE binary64 value,
    [spec_float].  [PDict] holds the items of a dict whose keys are strings,
    in insertion order. *)
#[warnings="-register-all"] Inductive pyval : Type :=
| PNone
| PBool (b : bool)
| PInt (n : Z)
| PFloat (x : spec_float)
| PStr (s : string)
| PList (l : list pyval)
| PDict (d : list (string * pyval)).

(** The hashable values among them: what can be a dict key. *)
Inductive pykey : Type :=
| KNone
| KBool (b : bool)
| KInt (n : Z)
| KFloat (x : spec_float)
| KStr (s : string).

(** [hash(v)]: lists and dicts are unhashable. *)
Definition to_key (v : pyval) : result pykey :=
  match v with
  | PNone => Return KNone
  | PBool b => Return (KBool b)
  | PInt n => Return (KInt n)
  | PFloat x => Return (KFloat x)
  | PStr s => Return (KStr s)
  | PList _ | PDict _ => Raise TypeError
  end.

(** [x == n] for a float and an int compares the exact values. *)
Definition float_eq_int (x : spec_float) (n : Z) : bool :=
  match x with
  | S754_zero _ => n =? 0
  | S754_finite s m e =>
      let v := if s then Z.neg m else Z.pos m in
      if 0 <=? e then n =? v * 2 ^ e
      else (v mod 2 ^ (- e) =? 0) && (n =? v / 2 ^ (- e))
  | S754_infinity _ | S754_nan => false
  end.

(** Two float keys denote the same dict slot when they are equal as reals,
    or are the same infinity; the json module hands out one shared [NaN]
    object, which a dict finds again by identity. *)
Definition float_key_eqb (x y : spec_float) : bool :=
  match x, y with
  | S754_nan, S754_nan => true
  | S754_zero _, S754_zero _ => true
  | S754_infinity s1, S754_infinity s2 => Bool.eqb s1 s2
  | S754_finite s1 m1 e1, S754_finite s2 m2 e2 =>
      let e := Z.min e1 e2 in
      Bool.eqb s1 s2 && (Z.pos m1 * 2 ^ (e1 - e) =? Z.pos m2 * 2 ^ (e2 - e))
  | _, _ => false
  end.

Definition int_of_bool (b : bool) : Z := if b then 1 else 0.

(** Whether two keys address the same dict slot: [True == 1 == 1.0]. *)
Definition key_eqb (k1 k2 : pykey) : bool :=
  match k1, k2 with
  | KNone, KNone => true
  | KStr s1, KStr s2 => String.eqb s1 s2
  | KBool b1, KBool b2 => Bool.eqb b1 b2
  | KBool b, KInt n | KInt n, KBool b => int_of_bool b =? n
  | KInt n1, KInt n2 => n1 =? n2
  | KBool b, KFloat x | KFloat x, KBool b => float_eq_int x (int_of_bool b)
  | KInt n, KFloat x | KFloat x, KInt n => float_eq_int x n
  | KFloat x, KFloat y => float_key_eqb x y
  | _, _ => false
  end.

(** ** Python dicts *)

(** A dict is the list of its items in insertion order; the operations
    below keep at most one item per slot. *)
Abbreviation pydict := (list (pykey * pyval)).

(** [d.get(k)] *)
Fixpoint dict_get (d : pydict) (k : pykey) : option pyval :=
  match d with
  | [] => None
  | (k', v) :: d' => if key_eqb k' k then Some v else dict_get d' k
  end.

(** [d[k] = v]: an existing slot keeps its key and its place and takes the
    new value; a new slot goes last. *)
Fixpoint dict_set (d : pydict) (k : pykey) (v : pyval) : pydict :=
  match d with
  | [] => [(k, v)]
  | (k', v') :: d' =>
      if key_eqb k' k then (k', v) :: d' else (k', v') :: dict_set d' k v
  end.

(** [d.update(m)] for a dict [m] with string keys, given by its items. *)
Definition dict_merge (d : pydict) (items : list (string * pyval)) : pydict :=
  foldl (λ acc kv, dict_set acc (KStr kv.1) kv.2) d items.

(** [list(item)], as [dict.update] takes each element of a sequence of
    pairs: a list is itself, a string gives its characters, a dict gives
    its keys; anything else is not iterable. *)
Definition sequence_of (item : pyval) : result (list pyval) :=
  match item with
  | PList l => Return l
  | PStr s => Return (map (λ c, PStr (String c EmptyString)) (String.list_ascii_of_string s))
  | PDict d => Return (map (λ kv, PStr kv.1) d)
  | PNone | PBool _ | PInt _ | PFloat _ => Raise TypeError
  end.

(** [d.update(seq)] for a sequence of pairs.  The dict is updated in place
    pair by pair, so the pairs before a bad element stay: the returned dict
    is the dict's state when the call ends, with the exception if any. *)
Fixpoint dict_merge_seq (d : pydict) (seq : list pyval) : pydict * option exn :=
  match seq with
  | [] => (d, None)
  | item :: seq' =>
      match sequence_of item with
      | Raise e => (d, Some e)
      | Return [k; v] =>
          match to_key k with
          | Raise e => (d, Some e)
          | Return key => dict_merge_seq (dict_set d key v) seq'
          end
      | Return _ => (d, Some ValueError)
      end
  end.

(** [d.update(other)] for any value [json.loads] can return. *)
Definition dict_update (d : pydict) (other : pyval) : pydict * option exn :=
  match other with
  | PDict items => (dict_merge d items, None)
  | PList _ | PStr _ =>
      match sequence_of other with
      | Return seq => dict_merge_seq d seq
      | Raise e => (d, Some e)
      end
  | PNone | PBool _ | PInt _ | PFloat _ => (d, Some TypeError)
  end.

(** ** The answer envelope as a DOM tree *)

(** What [xml.dom.minidom] builds: elements with their child nodes, text
    nodes, and the other character-data nodes, whose [nodeType] is not
    [TEXT_NODE]. *)
#[warnings="-register-all"] Inductive node : Type :=
| Element (tagName : string) (childNodes : list node)
| Text (data : string)
| CDATASection (data : string)
| Comment (data : string)
| ProcessingInstruction (target data : string).

(** The child nodes of the document node. *)
Record Document : Type := mkDocument { doc_childNodes : list node }.

(** minidom's [_get_elements_by_tagName_helper]: the descendant elements
    that carry the tag, in document order; an element is listed before its
    own descendants. *)
Fixpoint elements_by_tag (name : string) (n : node) : list node :=
  match n with
  | Element tag children =>
      (if String.eqb name "*" || String.eqb tag name then [n] else [])
        ++ flat_map (elements_by_tag name) children
  | _ => []
  end.

Definition getElementsByTagName (name : string) (doc : Document) : list node :=
  flat_map (elements_by_tag name) (doc_childNodes doc).

(** [t.nodeValue for t in free_text.childNodes if t.nodeType == t.TEXT_NODE] *)
Definition text_values (n : node) : list string :=
  match n with
  | Element _ children =>
      omap (λ t, match t with Text data => Some data | _ => None end) children
  | _ => []
  end.

(** ** Raw submissions *)

(** A timezone-aware [datetime], as an instant: microseconds since the
    epoch. *)
Record datetime : Type := mkDatetime { micros : Z }.

(** A [timedelta] is kept normalised by Python: [0 <= seconds < 86400] and
    [0 <= microseconds < 10^6], with the sign carried by [days]. *)
Record timedelta : Type := mkTimedelta {
  td_days : Z;
  td_seconds : Z;
  td_microseconds : Z
}.

Definition us_per_second : Z := 1000000.
Definition us_per_day : Z := 86400 * us_per_second.

(** [a - b] on datetimes *)
Definition datetime_sub (a b : datetime) : timedelta :=
  let us := micros a - micros b in
  {| td_days := us / us_per_day;
     td_seconds := (us mod us_per_day) / us_per_second;
     td_microseconds := us mod us_per_second |}.

(** One entry of a [list_assignments_for_hit] response.  A field is [None]
    when the raw dict lacks the key. *)
Record assignment : Type := mkAssignment {
  AssignmentId : option string;
  WorkerId : option string;
  HITId : option string;
  AssignmentStatus : option string;
  AcceptTime : option datetime;
  SubmitTime : option datetime;
  Answer : option string
}.

(** ** Answer decoder and record normaliser *)

Module Decoder.
Section decoder.
(** The two library parsers, taken as they are: [parseString] of
    [xml.dom.minidom] and [json.loads]. *)
Variable parseString : string → result Document.
Variable json_loads : string → result pyval.

(** The [assert] statement is executed, as it is when the interpreter
    runs without [-O]. *)
Definition parse_answer (assign : assignment) : result pyval :=
  xml ← subscript (Answer assign);
  answer_xml ← parseString xml;
  let free_text_nodes := getElementsByTagName "FreeText" answer_xml in
  if decide (length free_text_nodes ≤ 1)%nat then
    match free_text_nodes with
    | free_text :: _ =>
        let answer := String.concat " " (text_values free_text) in
        json_loads answer
    | [] => Raise IndexError
    end
  else Raise AssertionError.

(** The dict literal of [parse_assignment], before the [try]. *)
Definition base_record (assign : assignment) : result pydict :=
  accept_time ← subscript (AcceptTime assign);
  submit_time ← subscript (SubmitTime assign);
  let seconds := td_seconds (datetime_sub submit_time accept_time) in
  hit_id ← subscript (HITId assign);
  assign_id ← subscript (AssignmentId assign);
  worker_id ← subscript (WorkerId assign);
  assign_status ← subscript (AssignmentStatus assign);
  mret [ (KStr "hit_id", PStr hit_id);
         (KStr "assign_id", PStr assign_id);
         (KStr "worker_id", PStr worker_id);
         (KStr "assign_status", PStr assign_status);
         (KStr "seconds", PInt seconds) ].

(** The [except] body is the statement [result['parsing_error']: e], an
    annotation without a value: it stores nothing, and [result] stays as
    the [try] body left it. *)
Definition parse_assignment (assign : assignment) : result pydict :=
  result ← base_record assign;
  match parse_answer assign with
  | Return more =>
      (* an exception of [update] is caught too; what it stored stays *)
      mret (dict_update result more).1
  | Raise e => mret result
  end.

(** What the retrieval loop appends for one raw submission: its parsed
    record, with the type identifier assigned. *)
Definition appended (hit_type_id : string) (a : assignment) (rec : pydict) : Prop :=
  ∃ parsed,
    parse_assignment a = Return parsed ∧
    rec = dict_set parsed (KStr "hit_type_id") (PStr hit_type_id).

(** ** Retrieval loop *)

Context {World : Type}.
(** [mturk_client.list_assignments_for_hit(HITId=hit_id, MaxResults=100)],
    already through [.get('Assignments')]: [None] when the key is absent.
    As for the paginator, a call is taken to return. *)
Variable list_assignments_for_hit :
  string → World → option (list assignment) * World.

(** The inner [for]: an exception of [parse_assignment] leaves the loop. *)
Fixpoint parse_each (hit_type_id : string) (assignments_for_hit : list assignment)
    (assignments_for_review : list pydict) : result (list pydict) :=
  match assignments_for_hit with
  | [] => mret assignments_for_review
  | assign :: rest =>
      parsed_assignment ← parse_assignment assign;
      let parsed_assignment :=
        dict_set parsed_assignment (KStr "hit_type_id") (PStr hit_type_id) in
      parse_each hit_type_id rest (assignments_for_review ++ [parsed_assignment])
  end.

(** The outer [for]. *)
Fixpoint retrieve_loop (hit_type_id : string) (hit_ids : list string)
    (assignments_for_review : list pydict) (w : World)
    : result (list pydict) * World :=
  match hit_ids with
  | [] => (Return assignments_for_review, w)
  | hit_id :: rest =>
      let '(resp, w') := list_assignments_for_hit hit_id w in
      let assignments_for_hit := default [] resp in
      match parse_each hit_type_id assignments_for_hit assignments_for_review with
      | Return acc => retrieve_loop hit_type_id rest acc w'
      | Raise e => (Raise e, w')
      end
  end.

Definition retrieve_assignments (hit_type_id : string) (hit_ids : list string)
    (w : World) : result (list pydict) * World :=
  retrieve_loop hit_type_id hit_ids [] w.

(** The raw submissions the service returns for [hit_ids], in order: the
    batch the loop has to process. *)
Fixpoint raw_batch (hit_ids : list string) (w : World) : list assignment :=
  match hit_ids with
  | [] => []
  | hit_id :: rest =>
      let '(resp, w') := list_assignments_for_hit hit_id w in
      default [] resp ++ raw_batch rest w'
  end.

End decoder.
End Decoder.

(** ** Reading a decoded payload *)

(** [m[k]] for the dict [m] built from [items]: a later item with the same
    key has replaced an earlier one. *)
Definition payload_get (items : list (string * pyval)) (k : string) : option pyval :=
  foldl (λ found kv, if String.eqb kv.1 k then Some kv.2 else found) None items.

(** Every field of the payload is in the record under its own key, except
    under the key the retrieval loop assigns afterwards. *)
Definition decoded_into (items : list (string * pyval)) (rec : pydict) : Prop :=
  ∀ k v, payload_get items k = Some v → k ≠ "hit_type_id"%string →
         dict_get rec (KStr k) = Some v.

(** [timedelta.total_seconds()] rounded down: the whole seconds between two
    instants. *)
Definition whole_seconds (submit accept : datetime) : Z :=
  (micros submit - micros accept) / us_per_second.

(** ** Aggregator *)

(** Lexicographic combination of comparisons: the first that is not [Eq]
    decides. *)
Definition lex (c rest : comparison) : comparison :=
  match c with
  | Eq => rest
  | Lt => Lt
  | Gt => Gt
  end.

Definition not_Gt (c : comparison) : bool :=
  match c with
  | Gt => false
  | _ => true
  end.

Definition string_le : relation string := λ s1 s2,
  not_Gt (String.compare s1 s2) = true.
Global Instance string_le_dec : RelDecision string_le :=
  λ s1 s2, decide (not_Gt (String.compare s1 s2) = true).

(** The data frame of [to_hit_df], one record per row. *)
Module HitDf.
Record row : Type := mkRow {
  hit_id : string;
  hit_type_id : string;
  title : string;
  hit_status : string;
  expiration : datetime;
  review_status : string;
  n_assigns_pending : Z;
  n_assigns_available : Z;
  n_assigns_completed : Z
}.
End HitDf.

(** The data frame [to_hit_summary] returns, columns in the order of
    [cols]. *)
Module Summary.
Record row : Type := mkRow {
  title : string;
  hit_status : string;
  review_status : string;
  n_hits : Z;
  hit_type_id : string
}.
End Summary.

Module HitSummary.
(** The group key of [groupby(['hit_type_id', 'title', 'hit_status',
    'review_status'])]. *)
Abbreviation key := (string * string * string * string)%type.

Definition group_key (r : HitDf.row) : key :=
  (HitDf.hit_type_id r, HitDf.title r, HitDf.hit_status r, HitDf.review_status r).

(** The order of the group keys: component by component, in the order
    of the [groupby] columns. *)
Definition key_compare (k1 k2 : key) : comparison :=
  let '(ty1, ti1, st1, rv1) := k1 in
  let '(ty2, ti2, st2, rv2) := k2 in
  lex (String.compare ty1 ty2)
    (lex (String.compare ti1 ti2)
      (lex (String.compare st1 st2) (String.compare rv1 rv2))).

Definition key_le : relation key := λ k1 k2,
  not_Gt (key_compare k1 k2) = true.
Global Instance key_le_dec : RelDecision key_le :=
  λ k1 k2, decide (not_Gt (key_compare k1 k2) = true).

(** [.hit_id.nunique()] of one group: the number of distinct [hit_id]
    among the rows of the group. *)
Definition nunique (hit_df : list HitDf.row) (k : key) : Z :=
  let group := filter (λ r, group_key r = k) hit_df in
  Z.of_nat (size (list_to_set (map HitDf.hit_id group) : gset string)).

(** [groupby(...).hit_id.nunique().rename("n_hits").reset_index()]:
    one row per group that occurs, the groups in ascending key order. *)
Definition groupby_nunique (hit_df : list HitDf.row) : list (key * Z) :=
  let keys : gset key := list_to_set (map group_key hit_df) in
  map (λ k, (k, nunique hit_df k)) (merge_sort key_le (elements keys)).

(** [df2[cols]] *)
Definition select_cols (r : key * Z) : Summary.row :=
  let '((ty, ti, st, rv), n) := r in
  {| Summary.title := ti; Summary.hit_status := st;
     Summary.review_status := rv; Summary.n_hits := n;
     Summary.hit_type_id := ty |}.

(** The order [sort_values(cols)] sorts by: the columns of [cols], in
    that order. *)
Definition cols_compare (r1 r2 : Summary.row) : comparison :=
  lex (String.compare (Summary.title r1) (Summary.title r2))
    (lex (String.compare (Summary.hit_status r1) (Summary.hit_status r2))
      (lex (String.compare (Summary.review_status r1) (Summary.review_status r2))
        (lex (Z.compare (Summary.n_hits r1) (Summary.n_hits r2))
          (String.compare (Summary.hit_type_id r1) (Summary.hit_type_id r2))))).

Definition cols_le : relation Summary.row := λ r1 r2,
  not_Gt (cols_compare r1 r2) = true.
Global Instance cols_le_dec : RelDecision cols_le :=
  λ r1 r2, decide (not_Gt (cols_compare r1 r2) = true).

Definition to_hit_summary (hit_df : list HitDf.row) : list Summary.row :=
  let df2 := groupby_nunique hit_df in
  let df2 := map select_cols df2 in
  merge_sort cols_le df2.

(** The order the summary would have if it were sorted by the group key:
    type identifier, title, status, review status. *)
Definition summary_key (r : Summary.row) : key :=
  (Summary.hit_type_id r, Summary.title r, Summary.hit_status r,
   Summary.review_status r).
Definition by_group_key : relation Summary.row := λ r1 r2,
  key_le (summary_key r1) (summary_key r2).
End HitSummary.

(** The frame [assign_df]: the three columns selected from the records. *)
Module AssignDf.
Record row : Type := mkRow {
  worker_id : string;
  hit_id : string;
  assign_status : string
}.
End AssignDf.

Module WorkerSummary.
(** The hit identifiers of the submissions of one worker. *)
Definition hits_of (assign_df : list AssignDf.row) (worker : string) : list string :=
  map AssignDf.hit_id (filter (λ r, AssignDf.worker_id r = worker) assign_df).

(** [assign_df.groupby('worker_id').hit_id.nunique()
      .rename('Assignments completed').reset_index()]:
    one row (worker, count) per worker, in ascending order of worker. *)
Definition worker_df (assign_df : list AssignDf.row) : list (string * Z) :=
  let workers : gset string := list_to_set (map AssignDf.worker_id assign_df) in
  map (λ w, (w, Z.of_nat (size (list_to_set (hits_of assign_df w) : gset string))))
    (merge_sort string_le (elements workers)).
End WorkerSummary.

(** ** Client creation *)

Module Client.
(** [str.lower()] on one character, for the code points below 256: the
    capital letters A to Z and the capital letters from 192 to 222, without
    the multiplication sign 215, move up by 32; every other character is
    kept. *)
Definition lower_char (c : ascii) : ascii :=
  let n := N_of_ascii c in
  if ((65 <=? n) && (n <=? 90) || (192 <=? n) && (n <=? 222) && negb (n =? 215))%N
  then ascii_of_N (n + 32) else c.

Fixpoint lower (s : string) : string :=
  match s with
  | EmptyString => EmptyString
  | String c s' => String (lower_char c) (lower s')
  end.

Definition sandbox_url : string :=
  "https://mturk-requester-sandbox.us-east-1.amazonaws.com".
Definition production_url : string :=
  "https://mturk-requester.us-east-1.amazonaws.com".

(** The client [boto3.client('mturk', endpoint_url=..., region_name=...)]
    returns, by what it was built from. *)
Record client : Type := mkClient { endpoint_url : string; region_name : string }.

(** What the callers in the file pass for [env]: the name of an
    environment, or a client object. *)
Inductive env_arg : Type :=
| EnvName (name : string)
| EnvClient (c : client).

(** [AttributeError] beside the exceptions of the retrieval code. *)
Inductive failure : Type :=
| AttributeError
| Raised (e : exn).

(** A client object has no attribute [lower]: [env.lower()] raises
    [AttributeError] on it.  The [print] is left out; the creation of the
    client is taken to return. *)
Definition get_mturk_client (env : env_arg) : failure + client :=
  match env with
  | EnvName name =>
      let is_sandbox := String.eqb (lower name) "sandbox" in
      let endpoint_url := if is_sandbox then sandbox_url else production_url in
      inr (mkClient endpoint_url "us-east-1")
  | EnvClient _ => inl AttributeError
  end.

(** A character that [lower_char] sends to the small letter [t]: [t]
    itself or its capital. *)
Definition same_letter (c t : ascii) : Prop :=
  c = t ∨ c = ascii_of_N (N_of_ascii t - 32).
End Client.

(** ** Raw work units and their data frame *)

(** One entry of a [list_hits] or [list_reviewable_hits] response; a field
    is [None] when the raw dict lacks the key.  Entries that [to_hit_df]
    does not select are left out. *)
Module Hit.
Record raw : Type := mkRaw {
  HITId : option string;
  HITTypeId : option string;
  Title : option string;
  HITStatus : option string;
  Expiration : option datetime;
  HITReviewStatus : option string;
  NumberOfAssignmentsPending : option Z;
  NumberOfAssignmentsAvailable : option Z;
  NumberOfAssignmentsCompleted : option Z
}.

(** A response of a listing of work units: [resp.get('HITs')] and
    [resp.get('NextToken')]. *)
Record response : Type := mkResponse {
  HITs : option (list raw);
  NextToken : option string
}.

(** For each column of [cols] in [to_hit_df], whether a raw dict has it. *)
Definition has_column : list (raw → bool) :=
  [ λ h, bool_decide (is_Some (HITId h));
    λ h, bool_decide (is_Some (HITTypeId h));
    λ h, bool_decide (is_Some (Title h));
    λ h, bool_decide (is_Some (HITStatus h));
    λ h, bool_decide (is_Some (Expiration h));
    λ h, bool_decide (is_Some (HITReviewStatus h));
    λ h, bool_decide (is_Some (NumberOfAssignmentsPending h));
    λ h, bool_decide (is_Some (NumberOfAssignmentsAvailable h));
    λ h, bool_decide (is_Some (NumberOfAssignmentsCompleted h)) ].

(** The row of a raw dict that has all nine entries. *)
Definition complete (h : raw) : option HitDf.row :=
  id ← HITId h; ty ← HITTypeId h; ti ← Title h; st ← HITStatus h;
  ex ← Expiration h; rv ← HITReviewStatus h;
  np ← NumberOfAssignmentsPending h; na ← NumberOfAssignmentsAvailable h;
  nc ← NumberOfAssignmentsCompleted h;
  Some {| HitDf.hit_id := id; HitDf.hit_type_id := ty; HitDf.title := ti;
          HitDf.hit_status := st; HitDf.expiration := ex;
          HitDf.review_status := rv; HitDf.n_assigns_pending := np;
          HitDf.n_assigns_available := na; HitDf.n_assigns_completed := nc |}.
End Hit.

(** The frame [to_hit_df] returns, cell by cell: a cell is [None] (pandas'
    [NaN]) where the raw dict of the row lacks the entry. *)
Module HitFrame.
Record row : Type := mkRow {
  hit_id : option string;
  hit_type_id : option string;
  title : option string;
  hit_status : option string;
  Expiration : option datetime;
  review_status : option string;
  n_assigns_pending : option Z;
  n_assigns_available : option Z;
  n_assigns_completed : option Z
}.

(** [df[cols]] followed by the renaming of the columns, on one row. *)
Definition of_raw (h : Hit.raw) : row :=
  {| hit_id := Hit.HITId h; hit_type_id := Hit.HITTypeId h; title := Hit.Title h;
     hit_status := Hit.HITStatus h; Expiration := Hit.Expiration h;
     review_status := Hit.HITReviewStatus h;
     n_assigns_pending := Hit.NumberOfAssignmentsPending h;
     n_assigns_available := Hit.NumberOfAssignmentsAvailable h;
     n_assigns_completed := Hit.NumberOfAssignmentsCompleted h |}.

(** [pd.DataFrame(hits)] has a column for every key that some dict of
    [hits] has; [df[cols]] raises [KeyError] when a column of [cols] is not
    among them. *)
Definition to_hit_df (hits : list Hit.raw) : result (list row) :=
  if forallb (λ has, existsb has hits) Hit.has_column
  then Return (map of_raw hits)
  else Raise KeyError.

(** A row without [NaN] cell, as the record the aggregation reads. *)
Definition to_row (r : row) : option HitDf.row :=
  id ← hit_id r; ty ← hit_type_id r; ti ← title r; st ← hit_status r;
  ex ← Expiration r; rv ← review_status r;
  np ← n_assigns_pending r; na ← n_assigns_available r;
  nc ← n_assigns_completed r;
  Some {| HitDf.hit_id := id; HitDf.hit_type_id := ty; HitDf.title := ti;
          HitDf.hit_status := st; HitDf.expiration := ex;
          HitDf.review_status := rv; HitDf.n_assigns_pending := np;
          HitDf.n_assigns_available := na; HitDf.n_assigns_completed := nc |}.
End HitFrame.

(** ** Discovery and review *)

Module Dashboard.
Section dashboard.
Variable parseString : string → result Document.
Variable json_loads : string → result pyval.
Context {World : Type}.
(** The two listing operations of a client: [list_reviewable_hits] with
    its [HITTypeId] and cursor, and [list_assignments_for_hit], already
    through [.get('Assignments')]. *)
Variable list_reviewable_hits :
  Client.client → string → option string → World → Hit.response * World.
Variable list_assignments_for_hit :
  Client.client → string → World → option (list assignment) * World.

(** [paginate] over [list_reviewable_hits] with [resp.get('HITs', [])] and
    the maximum 10000, then [h['HITId']] for each item. *)
Definition get_reviewable_hits (mturk_client : Client.client) (hit_type_id : string)
    (fuel : nat) (w : World) : option (result (list string) * World) :=
  match Paginator.paginate (list_reviewable_hits mturk_client hit_type_id)
          (λ resp, default [] (Hit.HITs resp)) Hit.NextToken fuel (Some 10000) w with
  | None => None
  | Some (Raise e, _, w') => Some (Raise e, w')
  | Some (Return rev_hits, _, w') =>
      Some (mapM (λ h, subscript (Hit.HITId h)) rev_hits, w')
  end.

(** [retrieve_assignments] from its first line on: the client is made
    from [mturk_env], then the loop runs on it. *)
Definition retrieve_assignments (mturk_env : Client.env_arg) (hit_type_id : string)
    (hit_ids : list string) (w : World)
    : (Client.failure + list pydict) * World :=
  match Client.get_mturk_client mturk_env with
  | inl f => (inl f, w)
  | inr mturk_client =>
      match Decoder.retrieve_assignments parseString json_loads
              (list_assignments_for_hit mturk_client) hit_type_id hit_ids w with
      | (Return assignments_for_review, w') => (inr assignments_for_review, w')
      | (Raise e, w') => (inl (Client.Raised e), w')
      end
  end.

(** [review_assignments] passes its client, not the name of the
    environment, as first argument of [retrieve_assignments]. *)
Definition review_assignments (mturk_env : Client.env_arg) (hit_type_id : string)
    (fuel : nat) (w : World)
    : option ((Client.failure + list pydict) * World) :=
  match Client.get_mturk_client mturk_env with
  | inl f => Some (inl f, w)
  | inr mturk_client =>
      match get_reviewable_hits mturk_client hit_type_id fuel w with
      | None => None
      | Some (Raise e, w1) => Some (inl (Client.Raised e), w1)
      | Some (Return hit_ids, w1) =>
          Some (retrieve_assignments (Client.EnvClient mturk_client)
                  hit_type_id hit_ids w1)
      end
  end.

End dashboard.
End Dashboard.

(** The sum of the [n_hits] column of a summary. *)
Definition total_hits (summary : list Summary.row) : Z :=
  foldr Z.add 0 (map Summary.n_hits summary).

(** The keys of the dict literal of [parse_assignment]. *)
Definition base_keys : list string :=
  ["hit_id"; "assign_id"; "worker_id"; "assign_status"; "seconds"]%string.

(** The six entries of a raw submission that [parse_assignment] subscripts
    outside its [try]. *)
Definition has_base_fields (a : assignment) : Prop :=
  is_Some (AcceptTime a) ∧ is_Some (SubmitTime a) ∧ is_Some (HITId a) ∧
  is_Some (AssignmentId a) ∧ is_Some (WorkerId a) ∧ is_Some (AssignmentStatus a).

(** Three comparisons, of [x] with [y], [y] with [z] and [x] with [z],
    fit together as those of an order do. *)
Definition coherent (a b c : comparison) : Prop :=
  not_Gt a = true → not_Gt b = true →
  not_Gt c = true ∧ (c = Eq → a = Eq ∧ b = Eq).

(** ** Sample inputs *)

Module Samples.
(** A listing service without state of its own: a page is its items and
    its cursor. *)
Abbreviation page := (list Z * option string)%type.

(** Three pages; the second is empty but still carries a cursor. *)
Definition listing_gap (tok : option string) (w : unit) : page * unit :=
  match tok with
  | None => (([1; 2; 3], Some "t1"%string), w)
  | Some "t1"%string => (([], Some "t2"%string), w)
  | Some _ => (([4], None), w)
  end.

(** Two pages, the last without cursor. *)
Definition listing_two (tok : option string) (w : unit) : page * unit :=
  match tok with
  | None => (([1; 2], Some "a"%string), w)
  | Some _ => (([3], None), w)
  end.
(** The double quote character, for JSON texts. *)
Definition dq : string := String "034"%char EmptyString.

(** The JSON text [{}]. *)
Definition json_empty : string := "{}".
(** The JSON text [{"worker_id": "W9", "score": 7}]. *)
Definition json_override : string :=
  "{" +:+ dq +:+ "worker_id" +:+ dq +:+ ": " +:+ dq +:+ "W9" +:+ dq +:+ ", "
      +:+ dq +:+ "score" +:+ dq +:+ ": 7}".
Definition json_broken : string := "{not json".

(** A stand-in for [json.loads]: its value on the sample texts, and a
    decode error for every other text. *)
Definition json_loads (text : string) : result pyval :=
  if String.eqb text json_empty then Return (PDict [])
  else if String.eqb text json_override then
    Return (PDict [("worker_id"%string, PStr "W9"); ("score"%string, PInt 7)])
  else Raise JSONDecodeError.

(** An answer envelope with one [FreeText] field per text, and the tree
    minidom builds from it. *)
Definition envelope (texts : list string) : string :=
  "<QuestionFormAnswers>"
    +:+ String.concat "" (map (λ t, "<Answer><FreeText>" +:+ t +:+ "</FreeText></Answer>") texts)
    +:+ "</QuestionFormAnswers>".
Definition envelope_doc (texts : list string) : Document :=
  {| doc_childNodes :=
       [Element "QuestionFormAnswers"
          (map (λ t, Element "Answer" [Element "FreeText" [Text t]]) texts)] |}.

Definition known_envelopes : list (list string) :=
  [ []; [json_empty]; [json_override]; [json_broken]; [json_empty; json_override] ].

(** A stand-in for [parseString]: the tree of each sample envelope, and a
    parse error for every other text. *)
Definition parseString (xml : string) : result Document :=
  match find (λ texts, String.eqb xml (envelope texts)) known_envelopes with
  | Some texts => Return (envelope_doc texts)
  | None => Raise ExpatError
  end.

Definition submission (id worker hit : string) (accept submit : Z)
    (texts : list string) : assignment :=
  {| AssignmentId := Some id; WorkerId := Some worker; HITId := Some hit;
     AssignmentStatus := Some "Submitted"%string;
     AcceptTime := Some (mkDatetime accept);
     SubmitTime := Some (mkDatetime submit);
     Answer := Some (envelope texts) |}.

(** Accepted at the epoch; submitted 5 seconds later, with a payload that
    names a worker. *)
Definition sub_override : assignment :=
  submission "A1" "W1" "H1" 0 5000000 [json_override].
(** No [FreeText] field at all. *)
Definition sub_no_field : assignment :=
  submission "A2" "W2" "H1" 0 7000000 [].
(** Two [FreeText] fields. *)
Definition sub_two_fields : assignment :=
  submission "A3" "W1" "H2" 0 9000000 [json_empty; json_override].
(** Submitted one day and 5 seconds after it was accepted. *)
Definition sub_next_day : assignment :=
  submission "A4" "W3" "H2" 0 86405000000 [json_empty].

(** The service of the retrieval loop: two work units. *)
Definition list_assignments_for_hit (hit_id : string) (w : unit)
    : option (list assignment) * unit :=
  if String.eqb hit_id "H1" then (Some [sub_override; sub_no_field], w)
  else if String.eqb hit_id "H2" then (Some [sub_next_day], w)
  else (None, w).
(** Two work units of different types; the type that sorts first has the
    title that sorts last. *)
Definition hit (id ty ti : string) : HitDf.row :=
  {| HitDf.hit_id := id; HitDf.hit_type_id := ty; HitDf.title := ti;
     HitDf.hit_status := "Reviewable"; HitDf.expiration := mkDatetime 0;
     HitDf.review_status := "NotReviewed";
     HitDf.n_assigns_pending := 0; HitDf.n_assigns_available := 0;
     HitDf.n_assigns_completed := 1 |}.
Definition hit_df : list HitDf.row :=
  [ hit "H1" "A" "zebra"; hit "H2" "B" "apple"; hit "H3" "B" "apple" ].

(** Worker W1 with three submissions against two work units, and W2
    with one. *)
Definition assign_df : list AssignDf.row :=
  [ AssignDf.mkRow "W1" "H1" "Submitted"; AssignDf.mkRow "W1" "H2" "Approved";
    AssignDf.mkRow "W2" "H1" "Submitted"; AssignDf.mkRow "W1" "H1" "Rejected" ].

(** Submitted one second before it was accepted. *)
Definition sub_early : assignment :=
  submission "A5" "W4" "H3" 1000000 0 [json_empty].
(** A raw submission without the ['WorkerId'] entry. *)
Definition sub_no_worker : assignment :=
  {| AssignmentId := Some "A6"%string; WorkerId := None; HITId := Some "H4"%string;
     AssignmentStatus := Some "Submitted"%string;
     AcceptTime := Some (mkDatetime 0); SubmitTime := Some (mkDatetime 5000000);
     Answer := Some (envelope [json_empty]) |}.

(** A service whose second work unit holds a submission without worker. *)
Definition list_assignments_bad (hit_id : string) (w : unit)
    : option (list assignment) * unit :=
  if String.eqb hit_id "H1" then (Some [sub_override], w)
  else if String.eqb hit_id "H4" then (Some [sub_no_worker; sub_next_day], w)
  else (None, w).

(** Raw work units with all their entries, and one without identifier. *)
Definition raw_hit (id ty ti : string) : Hit.raw :=
  {| Hit.HITId := Some id; Hit.HITTypeId := Some ty; Hit.Title := Some ti;
     Hit.HITStatus := Some "Reviewable"%string;
     Hit.Expiration := Some (mkDatetime 0);
     Hit.HITReviewStatus := Some "NotReviewed"%string;
     Hit.NumberOfAssignmentsPending := Some 0;
     Hit.NumberOfAssignmentsAvailable := Some 0;
     Hit.NumberOfAssignmentsCompleted := Some 1 |}.
Definition raw_hits : list Hit.raw :=
  [ raw_hit "H1" "A" "zebra"; raw_hit "H2" "B" "apple" ].

(** A discovery service with two pages of one work unit each. *)
Definition list_reviewable_hits (c : Client.client) (hit_type_id : string)
    (tok : option string) (w : unit) : Hit.response * unit :=
  match tok with
  | None => (Hit.mkResponse (Some [raw_hit "H1" "A" "zebra"]) (Some "n1"%string), w)
  | Some _ => (Hit.mkResponse (Some [raw_hit "H2" "A" "zebra"]) None, w)
  end.

Definition list_assignments_of (c : Client.client) (hit_id : string) (w : unit)
    : option (list assignment) * unit :=
  list_assignments_for_hit hit_id w.
(** An envelope whose single field holds its content in a CDATA section,
    with the tree minidom builds from it, and a stand-in for [parseString]
    that knows this envelope only. *)
Definition envelope_cdata : string :=
  "<QuestionFormAnswers><Answer><FreeText><![CDATA[{}]]></FreeText></Answer></QuestionFormAnswers>".
Definition envelope_cdata_doc : Document :=
  {| doc_childNodes :=
       [Element "QuestionFormAnswers"
          [Element "Answer" [Element "FreeText" [CDATASection "{}"]]]] |}.
Definition parseString_cdata (xml : string) : result Document :=
  if String.eqb xml envelope_cdata then Return envelope_cdata_doc
  else Raise ExpatError.
Definition sub_cdata : assignment :=
  {| AssignmentId := Some "A7"%string; WorkerId := Some "W5"%string;
     HITId := Some "H5"%string; AssignmentStatus := Some "Submitted"%string;
     AcceptTime := Some (mkDatetime 0); SubmitTime := Some (mkDatetime 1000000);
     Answer := Some envelope_cdata |}.
End Samples.

(** * Properties *)

(** ** The paginator *)

Section paginate_facts.
Context {World Resp Item : Type}.
Variable operation : option string → World → Resp * World.
Variable result_fn : Resp → list Item.
Variable NextToken : Resp → option string.

Abbreviation paginate_loop := (Paginator.paginate_loop operation result_fn NextToken).
Abbreviation paginate := (Paginator.paginate operation result_fn NextToken).
Abbreviation service_run := (Paginator.service_run operation NextToken).
Abbreviation stopping := (Paginator.stopping result_fn NextToken).
Abbreviation items_of := (Paginator.items_of result_fn).

Lemma items_of_cons r pages :
  items_of (r :: pages) = result_fn r ++ items_of pages.
Proof. reflexivity. Qed.

Lemma service_run_length n tok w : length (service_run n tok w) = n.
Proof.
  revert tok w. induction n as [|n IH]; intros tok w; simpl; [done|].
  destruct (operation tok w) as [resp w1]. simpl. by rewrite IH.
Qed.

Lemma service_run_S n tok w :
  service_run (S n) tok w =
  (operation tok w).1 :: service_run n (NextToken (operation tok w).1) (operation tok w).2.
Proof. simpl. by destruct (operation tok w). Qed.

(** The loop condition, read off the page the loop holds. *)
Lemma loop_condition cur :
  truthy_list (result_fn cur) && truthy_token (NextToken cur) = negb (stopping cur).
Proof. unfold Paginator.stopping. by rewrite negb_involutive. Qed.

(** Whatever the maximum, the loop is over at the latest at the first
    page that is empty or without cursor. *)
Lemma loop_stops k : ∀ fuel max_results results cur trace w r,
  (k ≤ fuel)%nat →
  (cur :: service_run k (NextToken cur) w) !! k = Some r →
  stopping r = true →
  ∃ out more w',
    paginate_loop fuel max_results results (result_fn cur) (NextToken cur) trace w
      = Some (out, trace ++ more, w') ∧
    (length more ≤ k)%nat ∧
    more = service_run (length more) (NextToken cur) w.
Proof.
  induction k as [|k IH]; intros fuel max_results results cur trace w r Hfuel Hk Hr.
  - simpl in Hk. injection Hk as ->.
    exists (Return results), [], w.
    rewrite app_nil_r. split; [|done].
    destruct fuel; simpl; rewrite loop_condition, Hr; done.
  - destruct fuel as [|fuel]; [lia|]. simpl.
    rewrite loop_condition.
    destruct (stopping cur) eqn:Hcur; simpl.
    { exists (Return results), [], w. rewrite app_nil_r.
      repeat split; [simpl; lia]. }
    destruct (Paginator.reached max_results results).
    { exists (Return results), [], w. rewrite app_nil_r.
      repeat split; [simpl; lia]. }
    rewrite service_run_S in Hk. simpl in Hk.
    destruct (operation (NextToken cur) w) as [resp w1] eqn:Hop. simpl in Hk.
    destruct max_results as [m|].
    + destruct (IH fuel (Some m) (results ++ result_fn resp) resp (trace ++ [resp]) w1 r)
        as (out & more & w' & Hrun & Hlen & Hmore); [lia|done|done|].
      exists out, (resp :: more), w'.
      rewrite Hrun, <- app_assoc. simpl.
      repeat split; [lia|]. rewrite Hop. simpl. by rewrite <- Hmore.
    + exists (Raise TypeError), [resp], w1.
      repeat split; [simpl; lia|]. simpl. by rewrite Hop.
Qed.

(** With a maximum [m]: the loop returns once a page stops it or [m] items
    have been accumulated; what it had before its last call was below
    [m]; and it takes every page up to the first stopping one when these
    hold fewer than [m] items. *)
Lemma loop_returns (m : Z) k : ∀ fuel results cur trace w r,
  (k ≤ fuel)%nat →
  (cur :: service_run k (NextToken cur) w) !! k = Some r →
  stopping r = true ∨
    m ≤ Z.of_nat (length (results ++ items_of (service_run k (NextToken cur) w))) →
  ∃ more w',
    paginate_loop fuel (Some m) results (result_fn cur) (NextToken cur) trace w
      = Some (Return (results ++ items_of more), trace ++ more, w') ∧
    (length more ≤ k)%nat ∧
    more = service_run (length more) (NextToken cur) w ∧
    (∀ pre r', more = pre ++ [r'] →
       Z.of_nat (length (results ++ items_of pre)) < m) ∧
    ((∀ i r', (i < k)%nat →
        (cur :: service_run k (NextToken cur) w) !! i = Some r' →
        stopping r' = false) →
     Z.of_nat (length (results ++ items_of (service_run k (NextToken cur) w))) < m →
     more = service_run k (NextToken cur) w).
Proof.
  induction k as [|k IH]; intros fuel results cur trace w r Hfuel Hk Hend.
  - simpl in Hk. injection Hk as <-. simpl in Hend. rewrite app_nil_r in Hend.
    exists [], w. unfold Paginator.items_of. simpl. rewrite !app_nil_r.
    split; [|repeat split; try done; intros [|??] ?; done].
    destruct fuel; simpl; rewrite loop_condition;
      destruct (stopping cur) eqn:Hcur; simpl; try done;
      destruct Hend as [?|Hm]; try done;
      by replace (Z.of_nat (length results) >=? m) with true by lia.
  - destruct fuel as [|fuel]; [lia|]. simpl paginate_loop.
    rewrite loop_condition.
    destruct (stopping cur) eqn:Hcur; simpl.
    { exists [], w. unfold Paginator.items_of at 1. simpl. rewrite !app_nil_r.
      repeat split; [simpl; lia|intros [|??] ?; done|].
      intros Hall _. specialize (Hall O cur). simpl in Hall.
      rewrite Hall in Hcur; [done|lia|done]. }
    destruct (Z.of_nat (length results) >=? m) eqn:Hreached.
    { exists [], w. unfold Paginator.items_of at 1. simpl. rewrite !app_nil_r.
      repeat split; [simpl; lia|intros [|??] ?; done|].
      intros _ Hlt. rewrite length_app in Hlt. lia. }
    rewrite !service_run_S in *. simpl in Hk.
    destruct (operation (NextToken cur) w) as [resp w1] eqn:Hop.
    simpl in Hk, Hend |- *.
    rewrite items_of_cons, app_assoc in Hend.
    destruct (IH fuel (results ++ result_fn resp) resp (trace ++ [resp]) w1 r)
      as (more & w' & Hrun & Hlen & Hmore & Hbound & Hall); [lia|done|done|].
    exists (resp :: more), w'.
    rewrite Hrun, <- !app_assoc, items_of_cons. simpl.
    repeat split; [lia| |..].
    + rewrite Hop. simpl. by rewrite <- Hmore.
    + intros [|p pre] r' Hpre; simplify_eq/=.
      * unfold Paginator.items_of. simpl. rewrite app_nil_r. lia.
      * rewrite items_of_cons, app_assoc. by eapply Hbound.
    + intros Hnon Hlt. f_equal.
      rewrite items_of_cons, app_assoc in Hlt.
      apply Hall; [|done].
      intros i r' Hi Hlook. apply (Hnon (S i) r'); [lia|done].
Qed.

End paginate_facts.

(** C3 (as amended).  [paginate] checks the maximum only before it asks for
    a further page and never cuts a page: it returns once a page is empty or
    without cursor, or once [m] items are accumulated; it returns the items
    of the pages it fetched, in order; the pages before the last fetched one
    hold fewer than [m] items together; and when no page before page [k]
    stops the loop and all pages up to [k] hold fewer than [m] items, the
    result is the items of all these pages. *)
Theorem paginate_bound_and_completeness {World Resp Item : Type}
    (operation : option string → World → Resp * World)
    (result_fn : Resp → list Item) (NextToken : Resp → option string)
    (m : Z) (fuel k : nat) (w : World) (r : Resp) :
  (k ≤ fuel)%nat →
  Paginator.service_run operation NextToken (S k) None w !! k = Some r →
  Paginator.stopping result_fn NextToken r = true ∨
    m ≤ Z.of_nat (length (Paginator.items_of result_fn
                            (Paginator.service_run operation NextToken (S k) None w))) →
  ∃ trace w',
    Paginator.paginate operation result_fn NextToken fuel (Some m) w
      = Some (Return (Paginator.items_of result_fn trace), trace, w') ∧
    trace = Paginator.service_run operation NextToken (length trace) None w ∧
    (length trace ≤ S k)%nat ∧
    (∀ pre r', trace = pre ++ [r'] → pre ≠ [] →
       Z.of_nat (length (Paginator.items_of result_fn pre)) < m) ∧
    ((∀ i r', (i < k)%nat →
        Paginator.service_run operation NextToken (S k) None w !! i = Some r' →
        Paginator.stopping result_fn NextToken r' = false) →
     Z.of_nat (length (Paginator.items_of result_fn
                         (Paginator.service_run operation NextToken (S k) None w))) < m →
     trace = Paginator.service_run operation NextToken (S k) None w).
Proof.
  intros Hfuel Hk Hend. unfold Paginator.paginate.
  rewrite service_run_S in Hk, Hend |- *.
  destruct (operation None w) as [resp w1] eqn:Hop. simpl in Hk, Hend |- *.
  rewrite items_of_cons in Hend.
  destruct (loop_returns operation result_fn NextToken m k fuel
              (result_fn resp) resp [resp] w1 r Hfuel Hk Hend)
    as (more & w' & Hrun & Hlen & Hmore & Hbound & Hall).
  exists (resp :: more), w'. rewrite Hrun. simpl.
  repeat split; [|lia|..].
  - rewrite Hop. simpl. by rewrite <- Hmore.
  - intros [|p pre] r' Hpre Hne; [done|]. simplify_eq/=.
    rewrite items_of_cons. by eapply Hbound.
  - intros Hnon Hlt. f_equal. rewrite items_of_cons in Hlt. by apply Hall.
Qed.

(** The amended C3 at the two-page listing with maximum 10. *)
Lemma paginate_bound_and_completeness_witness :
  ∃ trace w',
    Paginator.paginate Samples.listing_two fst snd 1 (Some 10) tt
      = Some (Return (Paginator.items_of fst trace), trace, w') ∧
    trace = Paginator.service_run Samples.listing_two snd (length trace) None tt ∧
    (length trace ≤ 2)%nat ∧
    (∀ pre r', trace = pre ++ [r'] → pre ≠ [] →
       Z.of_nat (length (Paginator.items_of fst pre)) < 10) ∧
    ((∀ i r', (i < 1)%nat →
        Paginator.service_run Samples.listing_two snd 2 None tt !! i = Some r' →
        Paginator.stopping fst snd r' = false) →
     Z.of_nat (length (Paginator.items_of fst
                         (Paginator.service_run Samples.listing_two snd 2 None tt))) < 10 →
     trace = Paginator.service_run Samples.listing_two snd 2 None tt).
Proof.
  apply (paginate_bound_and_completeness Samples.listing_two fst snd
           10 1 1 tt ([3], None)).
  - lia.
  - reflexivity.
  - left. reflexivity.
Defined.

(** C3 as stated fails.  With maximum 2 and a first page of 3 items the
    result has 3 items; and with maximum 10 over pages that hold 4 items in
    all, the item behind an empty page is not returned. *)
Lemma paginate_exceeds_maximum :
  (Paginator.paginate Samples.listing_gap fst snd 5 (Some 2) tt
     = Some (Return [1; 2; 3], [([1; 2; 3], Some "t1"%string)], tt)
   ∧ ¬ (Z.of_nat (length [1; 2; 3]) ≤ 2))
  ∧
  (Paginator.items_of fst (Paginator.service_run Samples.listing_gap snd 3 None tt)
     = [1; 2; 3; 4]
   ∧ Z.of_nat (length [1; 2; 3; 4]) < 10
   ∧ Paginator.paginate Samples.listing_gap fst snd 5 (Some 10) tt
     = Some (Return [1; 2; 3],
             [([1; 2; 3], Some "t1"%string); ([], Some "t2"%string)], tt)).
Proof.
  repeat split; try reflexivity; simpl; lia.
Qed.

(** C4.  Whatever the maximum (also [None]), if the page the service gives
    at call [k] of its cursor chain is empty or without cursor, [paginate]
    ends with at most [k + 1] calls issued, each on the cursor of the page
    before: no call follows that page. *)
Theorem paginate_stops_at_stopping_page {World Resp Item : Type}
    (operation : option string → World → Resp * World)
    (result_fn : Resp → list Item) (NextToken : Resp → option string)
    (max_results : option Z) (fuel k : nat) (w : World) (r : Resp) :
  (k ≤ fuel)%nat →
  Paginator.service_run operation NextToken (S k) None w !! k = Some r →
  Paginator.stopping result_fn NextToken r = true →
  ∃ out trace w',
    Paginator.paginate operation result_fn NextToken fuel max_results w
      = Some (out, trace, w') ∧
    (length trace ≤ S k)%nat ∧
    trace = Paginator.service_run operation NextToken (length trace) None w.
Proof.
  intros Hfuel Hk Hr. unfold Paginator.paginate.
  rewrite service_run_S in Hk.
  destruct (operation None w) as [resp w1] eqn:Hop. simpl in Hk.
  destruct (loop_stops operation result_fn NextToken k fuel max_results
              (result_fn resp) resp [resp] w1 r Hfuel Hk Hr)
    as (out & more & w' & Hrun & Hlen & Hmore).
  exists out, (resp :: more), w'. rewrite Hrun. simpl.
  repeat split; [lia|]. rewrite Hop. simpl. by rewrite <- Hmore.
Qed.

(** C4 at the listing whose second page is empty, with a maximum far away. *)
Lemma paginate_stops_at_stopping_page_witness :
  ∃ out trace w',
    Paginator.paginate Samples.listing_gap fst snd 1 (Some 10000) tt
      = Some (out, trace, w') ∧
    (length trace ≤ 2)%nat ∧
    trace = Paginator.service_run Samples.listing_gap snd (length trace) None tt.
Proof.
  apply (paginate_stops_at_stopping_page Samples.listing_gap fst snd
           (Some 10000) 1 1 tt ([], Some "t2"%string)).
  - lia.
  - reflexivity.
  - reflexivity.
Defined.

(** ** Dicts with string keys *)

Lemma key_eqb_KStr k s : key_eqb k (KStr s) = true → k = KStr s.
Proof.
  destruct k; simpl; try done.
  intros H. f_equal. by apply String.eqb_eq.
Qed.

Lemma dict_get_set_str d k v k' :
  dict_get (dict_set d (KStr k) v) (KStr k') =
  if String.eqb k k' then Some v else dict_get d (KStr k').
Proof.
  induction d as [|[k0 v0] d IH]; simpl.
  - done.
  - destruct (key_eqb k0 (KStr k)) eqn:Hk0; simpl.
    + apply key_eqb_KStr in Hk0 as ->. simpl. by destruct (String.eqb k k').
    + destruct (key_eqb k0 (KStr k')) eqn:Hk0'; [|apply IH].
      apply key_eqb_KStr in Hk0' as ->. simpl in Hk0.
      by rewrite String.eqb_sym, Hk0.
Qed.

Lemma payload_get_snoc items k0 v0 k :
  payload_get (items ++ [(k0, v0)]) k =
  if String.eqb k0 k then Some v0 else payload_get items k.
Proof. unfold payload_get. by rewrite foldl_app. Qed.

Lemma dict_merge_snoc d items k0 v0 :
  dict_merge d (items ++ [(k0, v0)]) = dict_set (dict_merge d items) (KStr k0) v0.
Proof. unfold dict_merge. by rewrite foldl_app. Qed.

(** Reading a merged dict: the payload's value where it has the key, the
    old value elsewhere. *)
Lemma dict_get_merge d items k :
  dict_get (dict_merge d items) (KStr k) =
  match payload_get items k with
  | Some v => Some v
  | None => dict_get d (KStr k)
  end.
Proof.
  induction items as [|[k0 v0] items IH] using rev_ind; [done|].
  rewrite dict_merge_snoc, payload_get_snoc, dict_get_set_str.
  by destruct (String.eqb k0 k).
Qed.

(** ** The elapsed seconds *)

(** The [seconds] attribute of the difference is the whole seconds modulo
    one day: the days are left in [days]. *)
Lemma td_seconds_mod_day submit accept :
  td_seconds (datetime_sub submit accept) = whole_seconds submit accept mod 86400.
Proof.
  unfold datetime_sub, whole_seconds, us_per_day, us_per_second. simpl.
  set (us := micros submit - micros accept).
  replace (86400 * 1000000) with (1000000 * 86400) by lia.
  rewrite Z.rem_mul_r by lia.
  rewrite Z.add_comm, Z.mul_comm, Z.div_add_l by lia.
  rewrite (Z.div_small (us mod 1000000)); [lia|].
  apply Z.mod_pos_bound. lia.
Qed.

Lemma td_seconds_within_day submit accept :
  0 ≤ micros submit - micros accept < us_per_day →
  td_seconds (datetime_sub submit accept) = whole_seconds submit accept.
Proof.
  intros H. rewrite td_seconds_mod_day. apply Z.mod_small.
  unfold whole_seconds, us_per_day, us_per_second in *. split.
  - apply Z.div_pos; lia.
  - apply Z.div_lt_upper_bound; lia.
Qed.

(** ** The answer decoder and the record normaliser *)

Section decoder_facts.
Variable parseString : string → result Document.
Variable json_loads : string → result pyval.

Abbreviation parse_answer := (Decoder.parse_answer parseString json_loads).
Abbreviation base_record := (Decoder.base_record).
Abbreviation parse_assignment := (Decoder.parse_assignment parseString json_loads).

(** [parse_assignment] raises only what the base fields raise. *)
Lemma parse_assignment_base assign base :
  base_record assign = Return base →
  ∃ rec, parse_assignment assign = Return rec.
Proof.
  intros Hbase. unfold Decoder.parse_assignment. rewrite Hbase. simpl.
  destruct parse_answer; eauto.
Qed.

Lemma parse_assignment_raise assign base e :
  base_record assign = Return base →
  parse_answer assign = Raise e →
  parse_assignment assign = Return base.
Proof.
  intros Hbase He. unfold Decoder.parse_assignment. rewrite Hbase. simpl.
  by rewrite He.
Qed.

Lemma parse_assignment_payload assign base items :
  base_record assign = Return base →
  parse_answer assign = Return (PDict items) →
  parse_assignment assign = Return (dict_merge base items).
Proof.
  intros Hbase Hp. unfold Decoder.parse_assignment. rewrite Hbase. simpl.
  by rewrite Hp.
Qed.

(** The keys of the dict literal. *)
Lemma base_record_no_marker assign base :
  base_record assign = Return base →
  dict_get base (KStr "parsing_error") = None.
Proof.
  unfold Decoder.base_record. intros H.
  destruct (AcceptTime assign), (SubmitTime assign), (HITId assign),
    (AssignmentId assign), (WorkerId assign), (AssignmentStatus assign);
    simpl in H; try discriminate H.
  unfold mret, result_ret in H. by injection H as <-.
Qed.

End decoder_facts.

(** C5.  When the envelope parses to a document with two or more [FreeText]
    elements, [parse_answer] raises [AssertionError]: no value is returned,
    whatever the fields hold and whatever [json.loads] would make of them. *)
Theorem parse_answer_rejects_several_fields
    (parseString : string → result Document) (json_loads : string → result pyval)
    (assign : assignment) (xml : string) (doc : Document) :
  Answer assign = Some xml →
  parseString xml = Return doc →
  (2 ≤ length (getElementsByTagName "FreeText" doc))%nat →
  Decoder.parse_answer parseString json_loads assign = Raise AssertionError.
Proof.
  intros Hxml Hdoc Hlen. unfold Decoder.parse_answer.
  rewrite Hxml. simpl. rewrite Hdoc. simpl.
  destruct (decide _) as [Hle|]; [lia|done].
Qed.

(** C5 at the sample envelope with two fields. *)
Lemma parse_answer_rejects_several_fields_witness :
  Decoder.parse_answer Samples.parseString Samples.json_loads Samples.sub_two_fields
    = Raise AssertionError.
Proof.
  apply (parse_answer_rejects_several_fields Samples.parseString Samples.json_loads
           Samples.sub_two_fields
           (Samples.envelope [Samples.json_empty; Samples.json_override])
           (Samples.envelope_doc [Samples.json_empty; Samples.json_override])).
  - reflexivity.
  - reflexivity.
  - simpl. lia.
Defined.

(** C2 fails on the code.  When decoding raises, [parse_assignment] returns
    the base fields alone: the record has no ['parsing_error'] entry, so the
    cause is not recorded. *)
Theorem decode_failure_leaves_no_marker
    (parseString : string → result Document) (json_loads : string → result pyval)
    (assign : assignment) (base : pydict) (e : exn) :
  Decoder.base_record assign = Return base →
  Decoder.parse_answer parseString json_loads assign = Raise e →
  Decoder.parse_assignment parseString json_loads assign = Return base ∧
  dict_get base (KStr "parsing_error") = None.
Proof.
  intros Hbase He. split.
  - by eapply parse_assignment_raise.
  - by eapply base_record_no_marker.
Qed.

(** The submission without any [FreeText] field: decoding raises
    [IndexError], and the record is the five base fields. *)
Lemma decode_failure_leaves_no_marker_witness :
  Decoder.parse_assignment Samples.parseString Samples.json_loads Samples.sub_no_field
    = Return [ (KStr "hit_id", PStr "H1"); (KStr "assign_id", PStr "A2");
               (KStr "worker_id", PStr "W2"); (KStr "assign_status", PStr "Submitted");
               (KStr "seconds", PInt 7) ] ∧
  dict_get [ (KStr "hit_id", PStr "H1"); (KStr "assign_id", PStr "A2");
             (KStr "worker_id", PStr "W2"); (KStr "assign_status", PStr "Submitted");
             (KStr "seconds", PInt 7) ] (KStr "parsing_error") = None.
Proof.
  apply (decode_failure_leaves_no_marker Samples.parseString Samples.json_loads
           Samples.sub_no_field _ IndexError).
  - reflexivity.
  - reflexivity.
Defined.

(** C6 fails on the code.  A submission accepted at the epoch and submitted
    one day and five seconds later has [accept <= submit] and 86405 whole
    seconds between the two, and its record holds [seconds = 5]. *)
Theorem seconds_drops_whole_days :
  micros (mkDatetime 0) ≤ micros (mkDatetime 86405000000) ∧
  whole_seconds (mkDatetime 86405000000) (mkDatetime 0) = 86405 ∧
  Decoder.parse_assignment Samples.parseString Samples.json_loads Samples.sub_next_day
    = Return [ (KStr "hit_id", PStr "H2"); (KStr "assign_id", PStr "A4");
               (KStr "worker_id", PStr "W3"); (KStr "assign_status", PStr "Submitted");
               (KStr "seconds", PInt 5) ].
Proof.
  split; [simpl; lia|]. split; reflexivity.
Qed.

(** C10.  When the base fields are there and the answer decodes to a
    mapping, the record is the base dict with the payload merged into it:
    under every key of the payload, the base field names included, it holds
    the payload's value, and under every other key what the base dict
    holds. *)
Theorem payload_overrides_base_fields
    (parseString : string → result Document) (json_loads : string → result pyval)
    (assign : assignment) (base : pydict) (items : list (string * pyval)) :
  Decoder.base_record assign = Return base →
  Decoder.parse_answer parseString json_loads assign = Return (PDict items) →
  ∃ rec,
    Decoder.parse_assignment parseString json_loads assign = Return rec ∧
    (∀ k v, payload_get items k = Some v → dict_get rec (KStr k) = Some v) ∧
    (∀ k, payload_get items k = None → dict_get rec (KStr k) = dict_get base (KStr k)).
Proof.
  intros Hbase Hp. exists (dict_merge base items). split; [|split].
  - by apply parse_assignment_payload.
  - intros k v Hk. by rewrite dict_get_merge, Hk.
  - intros k Hk. by rewrite dict_get_merge, Hk.
Qed.

(** C10 at the sample whose payload names a worker: the record's
    ['worker_id'] is the payload's ["W9"], not the submission's ["W1"]. *)
Lemma payload_overrides_base_fields_witness :
  WorkerId Samples.sub_override = Some "W1"%string ∧
  ∃ rec,
    Decoder.parse_assignment Samples.parseString Samples.json_loads Samples.sub_override
      = Return rec ∧
    dict_get rec (KStr "worker_id") = Some (PStr "W9").
Proof.
  split; [reflexivity|].
  destruct (payload_overrides_base_fields Samples.parseString Samples.json_loads
              Samples.sub_override
              [ (KStr "hit_id", PStr "H1"); (KStr "assign_id", PStr "A1");
                (KStr "worker_id", PStr "W1"); (KStr "assign_status", PStr "Submitted");
                (KStr "seconds", PInt 5) ]
              [("worker_id"%string, PStr "W9"); ("score"%string, PInt 7)])
    as (rec & Hrec & Hin & _).
  - reflexivity.
  - reflexivity.
  - exists rec. split; [exact Hrec|]. apply Hin. reflexivity.
Defined.

(** ** The retrieval loop *)

Section retrieval_facts.
Variable parseString : string → result Document.
Variable json_loads : string → result pyval.
Context {World : Type}.
Variable list_assignments_for_hit :
  string → World → option (list assignment) * World.

Abbreviation parse_each := (Decoder.parse_each parseString json_loads).
Abbreviation retrieve_loop :=
  (Decoder.retrieve_loop parseString json_loads list_assignments_for_hit).
Abbreviation raw_batch := (Decoder.raw_batch list_assignments_for_hit).

Abbreviation appended := (Decoder.appended parseString json_loads).

Lemma parse_each_all ty raws : ∀ acc,
  (∀ a, a ∈ raws → ∃ base, Decoder.base_record a = Return base) →
  ∃ recs, parse_each ty raws acc = Return (acc ++ recs) ∧
          Forall2 (appended ty) raws recs.
Proof.
  induction raws as [|a raws IH]; intros acc Hbase; simpl.
  - exists []. by rewrite app_nil_r.
  - destruct (Hbase a) as [base Ha]; [left|].
    destruct (parse_assignment_base parseString json_loads a base Ha) as [parsed Hp].
    rewrite Hp. simpl.
    destruct (IH (acc ++ [dict_set parsed (KStr "hit_type_id") (PStr ty)]))
      as (recs & Hrecs & Hall).
    { intros a' Ha'. apply Hbase. by right. }
    exists (dict_set parsed (KStr "hit_type_id") (PStr ty) :: recs).
    rewrite Hrecs, <- app_assoc. split; [done|].
    constructor; [|done]. by exists parsed.
Qed.

Lemma retrieve_loop_all ty hit_ids : ∀ acc w,
  (∀ a, a ∈ raw_batch hit_ids w → ∃ base, Decoder.base_record a = Return base) →
  ∃ recs w', retrieve_loop ty hit_ids acc w = (Return (acc ++ recs), w') ∧
             Forall2 (appended ty) (raw_batch hit_ids w) recs.
Proof.
  induction hit_ids as [|hit_id hit_ids IH]; intros acc w Hbase; simpl in *.
  - exists [], w. by rewrite app_nil_r.
  - destruct (list_assignments_for_hit hit_id w) as [resp w1].
    destruct (parse_each_all ty (default [] resp) acc) as (recs1 & Hrecs1 & Hall1).
    { intros a Ha. apply Hbase. apply elem_of_app. by left. }
    rewrite Hrecs1.
    destruct (IH (acc ++ recs1) w1) as (recs2 & w' & Hrecs2 & Hall2).
    { intros a Ha. apply Hbase. apply elem_of_app. by right. }
    exists (recs1 ++ recs2), w'. rewrite Hrecs2, <- app_assoc.
    split; [done|]. by apply Forall2_app.
Qed.

End retrieval_facts.

(** C1.  When every raw submission of the batch has the base fields, the
    loop returns one record per raw submission, in order, whatever the
    answer envelopes hold: a submission whose decoding raises is kept as
    its base fields (with the type identifier), and a submission whose
    answer decodes to a mapping is kept with every field of that mapping.
    So a batch with exactly one malformed envelope gives as many records
    as submissions, the others decoded in full. *)
Theorem retrieve_assignments_isolates_failure
    (parseString : string → result Document) (json_loads : string → result pyval)
    {World : Type}
    (list_assignments_for_hit : string → World → option (list assignment) * World)
    (hit_type_id : string) (hit_ids : list string) (w : World) :
  (∀ a, a ∈ Decoder.raw_batch list_assignments_for_hit hit_ids w → ∃ base, Decoder.base_record a = Return base) →
  ∃ recs w',
    Decoder.retrieve_assignments parseString json_loads list_assignments_for_hit
      hit_type_id hit_ids w = (Return recs, w') ∧
    length recs = length (Decoder.raw_batch list_assignments_for_hit hit_ids w) ∧
    (∀ i a e,
       Decoder.raw_batch list_assignments_for_hit hit_ids w !! i = Some a →
       Decoder.parse_answer parseString json_loads a = Raise e →
       ∃ base,
         Decoder.base_record a = Return base ∧
         recs !! i = Some (dict_set base (KStr "hit_type_id") (PStr hit_type_id))) ∧
    (∀ i a items,
       Decoder.raw_batch list_assignments_for_hit hit_ids w !! i = Some a →
       Decoder.parse_answer parseString json_loads a = Return (PDict items) →
       ∃ base rec,
         Decoder.base_record a = Return base ∧
         recs !! i = Some rec ∧
         rec = dict_set (dict_merge base items) (KStr "hit_type_id") (PStr hit_type_id) ∧
         decoded_into items rec).
Proof.
  intros Hbase. unfold Decoder.retrieve_assignments.
  destruct (retrieve_loop_all parseString json_loads list_assignments_for_hit
            hit_type_id hit_ids [] w Hbase)
    as (recs & w' & Hrun & Hall).
  exists recs, w'. split; [done|]. split; [|split].
  - symmetry. by eapply Forall2_length.
  - intros i a e Hi He.
    destruct (Forall2_lookup_l _ _ _ _ _ Hall Hi) as (rec & Hrec & parsed & Hp & ->).
    destruct (Hbase a) as [base Ha]; [by eapply list_elem_of_lookup_2|].
    exists base. split; [done|].
    rewrite (parse_assignment_raise parseString json_loads a base e Ha He) in Hp.
    by injection Hp as <-.
  - intros i a items Hi Hitems.
    destruct (Forall2_lookup_l _ _ _ _ _ Hall Hi) as (rec & Hrec & parsed & Hp & ->).
    destruct (Hbase a) as [base Ha]; [by eapply list_elem_of_lookup_2|].
    rewrite (parse_assignment_payload parseString json_loads a base items Ha Hitems) in Hp.
    injection Hp as <-.
    exists base, (dict_set (dict_merge base items) (KStr "hit_type_id") (PStr hit_type_id)).
    repeat split; [done..|].
    intros k v Hk Hne. rewrite dict_get_set_str, dict_get_merge, Hk.
    destruct (String.eqb_spec "hit_type_id" k); [by subst|done].
Qed.


(** C1 at the sample service: three raw submissions over two work units,
    the second one without any [FreeText] field. *)
Lemma retrieve_assignments_isolates_failure_witness :
  ∃ recs w',
    Decoder.retrieve_assignments Samples.parseString Samples.json_loads
      Samples.list_assignments_for_hit "T" ["H1"; "H2"]%string tt = (Return recs, w') ∧
    length recs = 3%nat ∧
    recs !! 1%nat
      = Some [ (KStr "hit_id", PStr "H1"); (KStr "assign_id", PStr "A2");
               (KStr "worker_id", PStr "W2"); (KStr "assign_status", PStr "Submitted");
               (KStr "seconds", PInt 7); (KStr "hit_type_id", PStr "T") ] ∧
    (∃ rec, recs !! 0%nat = Some rec ∧ dict_get rec (KStr "score") = Some (PInt 7)).
Proof.
  destruct (retrieve_assignments_isolates_failure Samples.parseString Samples.json_loads
              Samples.list_assignments_for_hit "T" ["H1"; "H2"]%string tt)
    as (recs & w' & Hrun & Hlen & Hbad & Hgood).
  - intros a Ha. apply list_elem_of_In in Ha. simpl in Ha.
    destruct Ha as [<-|[<-|[<-|[]]]]; eexists; reflexivity.
  - exists recs, w'. split; [exact Hrun|]. split; [exact Hlen|]. split.
    + destruct (Hbad 1%nat Samples.sub_no_field IndexError eq_refl eq_refl)
        as (base & Hbase & Hrec).
      simpl in Hbase. injection Hbase as <-. exact Hrec.
    + destruct (Hgood 0%nat Samples.sub_override
                  [("worker_id"%string, PStr "W9"); ("score"%string, PInt 7)]
                  eq_refl eq_refl)
        as (base & rec & _ & Hrec & _ & Hdec).
      exists rec. split; [exact Hrec|]. apply Hdec; [reflexivity|discriminate].
Defined.

(** ** The aggregations *)

Lemma lex_antisym a b a' b' :
  a = CompOpp a' → b = CompOpp b' → lex a b = CompOpp (lex a' b').
Proof. intros -> ->. by destruct a'. Qed.

Lemma not_Gt_total c : not_Gt c = true ∨ not_Gt (CompOpp c) = true.
Proof. destruct c; simpl; auto. Qed.

Lemma cols_compare_antisym r1 r2 :
  HitSummary.cols_compare r1 r2 = CompOpp (HitSummary.cols_compare r2 r1).
Proof.
  unfold HitSummary.cols_compare.
  repeat apply lex_antisym;
    first [apply String.compare_antisym | apply Z.compare_antisym].
Qed.

Global Instance cols_le_total : Total HitSummary.cols_le.
Proof.
  intros r1 r2. unfold HitSummary.cols_le.
  rewrite (cols_compare_antisym r2 r1). apply not_Gt_total.
Qed.

Lemma coherent_lex a b c a' b' c' :
  coherent a b c → coherent a' b' c' → coherent (lex a a') (lex b b') (lex c c').
Proof.
  unfold coherent. intros H H' Ha Hb.
  destruct a, b; simpl in *; try done;
    destruct (H eq_refl eq_refl) as [Hc Heq];
    destruct c; simpl in *; try done;
    try (destruct (Heq eq_refl); done); auto.
Qed.

Lemma coherent_ascii x y z :
  coherent (Ascii.compare x y) (Ascii.compare y z) (Ascii.compare x z).
Proof.
  unfold coherent, Ascii.compare.
  destruct (N.compare_spec (N_of_ascii x) (N_of_ascii y)),
    (N.compare_spec (N_of_ascii y) (N_of_ascii z)),
    (N.compare_spec (N_of_ascii x) (N_of_ascii z));
    simpl; intros; try done; try lia; split; try done; intros; lia.
Qed.

Lemma coherent_Z x y z :
  coherent (Z.compare x y) (Z.compare y z) (Z.compare x z).
Proof.
  unfold coherent.
  destruct (Z.compare_spec x y), (Z.compare_spec y z), (Z.compare_spec x z);
    simpl; intros; try done; try lia; split; try done; intros; lia.
Qed.

Lemma coherent_string s1 : ∀ s2 s3,
  coherent (String.compare s1 s2) (String.compare s2 s3) (String.compare s1 s3).
Proof.
  induction s1 as [|c1 s1 IH]; intros [|c2 s2] [|c3 s3]; try (by unfold coherent).
  change (coherent (lex (Ascii.compare c1 c2) (String.compare s1 s2))
                   (lex (Ascii.compare c2 c3) (String.compare s2 s3))
                   (lex (Ascii.compare c1 c3) (String.compare s1 s3))).
  apply coherent_lex; [apply coherent_ascii|apply IH].
Qed.

Global Instance cols_le_trans : Transitive HitSummary.cols_le.
Proof.
  intros r1 r2 r3 H12 H23. unfold HitSummary.cols_le in *.
  eapply (coherent_lex _ _ _ _ _ _ (coherent_string _ _ _)
            (coherent_lex _ _ _ _ _ _ (coherent_string _ _ _)
              (coherent_lex _ _ _ _ _ _ (coherent_string _ _ _)
                (coherent_lex _ _ _ _ _ _ (coherent_Z _ _ _) (coherent_string _ _ _)))));
    [exact H12|exact H23].
Qed.

(** C7 (as amended).  The summary holds the rows of the groups and is
    sorted ascending by the columns in the order of [cols]: title, status,
    review status, count, type identifier; every row is at most every later
    row in the lexicographic order on these. *)
Theorem to_hit_summary_sorted_by_cols (hit_df : list HitDf.row) :
  StronglySorted HitSummary.cols_le (HitSummary.to_hit_summary hit_df) ∧
  HitSummary.to_hit_summary hit_df
    ≡ₚ map HitSummary.select_cols (HitSummary.groupby_nunique hit_df).
Proof.
  unfold HitSummary.to_hit_summary. split.
  - apply (StronglySorted_merge_sort HitSummary.cols_le).
  - apply merge_sort_Permutation.
Qed.

(** C7 as stated fails: type ["A"] with title ["zebra"] comes after type
    ["B"] with title ["apple"], against the order of the group keys. *)
Lemma to_hit_summary_not_sorted_by_group_key :
  ¬ Sorted HitSummary.by_group_key (HitSummary.to_hit_summary Samples.hit_df).
Proof.
  replace (HitSummary.to_hit_summary Samples.hit_df)
    with [ Summary.mkRow "apple" "Reviewable" "NotReviewed" 2 "B";
           Summary.mkRow "zebra" "Reviewable" "NotReviewed" 1 "A" ]
    by (vm_compute; reflexivity).
  intros Hsorted. inversion Hsorted as [|?? _ Hhd]. inversion Hhd as [|?? Hle].
  vm_compute in Hle. discriminate Hle.
Qed.

Lemma nunique_perm l1 l2 k :
  l1 ≡ₚ l2 → HitSummary.nunique l1 k = HitSummary.nunique l2 k.
Proof.
  intros Hperm. unfold HitSummary.nunique. do 2 f_equal.
  apply list_to_set_perm_L, Permutation_map. by rewrite Hperm.
Qed.

(** C8.  The summary depends on the rows only, not on their order: two
    inputs that are permutations of each other give the same list of rows. *)
Theorem to_hit_summary_permutation (hit_df hit_df' : list HitDf.row) :
  hit_df ≡ₚ hit_df' →
  HitSummary.to_hit_summary hit_df = HitSummary.to_hit_summary hit_df'.
Proof.
  intros Hperm. unfold HitSummary.to_hit_summary, HitSummary.groupby_nunique.
  do 2 f_equal.
  replace (list_to_set (map HitSummary.group_key hit_df') : gset HitSummary.key)
    with (list_to_set (map HitSummary.group_key hit_df) : gset HitSummary.key)
    by (apply list_to_set_perm_L, Permutation_map, Hperm).
  apply map_ext. intros k. f_equal. by apply nunique_perm.
Qed.

(** C8 at the sample frame and the same rows in another order. *)
Lemma to_hit_summary_permutation_witness :
  HitSummary.to_hit_summary
    [ Samples.hit "H1" "A" "zebra"; Samples.hit "H2" "B" "apple";
      Samples.hit "H3" "B" "apple" ]
  = HitSummary.to_hit_summary
      [ Samples.hit "H2" "B" "apple"; Samples.hit "H1" "A" "zebra";
        Samples.hit "H3" "B" "apple" ].
Proof.
  apply (to_hit_summary_permutation
           [ Samples.hit "H1" "A" "zebra"; Samples.hit "H2" "B" "apple";
             Samples.hit "H3" "B" "apple" ]
           [ Samples.hit "H2" "B" "apple"; Samples.hit "H1" "A" "zebra";
             Samples.hit "H3" "B" "apple" ]).
  apply perm_swap.
Defined.

Lemma elem_of_map {A B} (f : A → B) (l : list A) (y : B) :
  y ∈ map f l ↔ ∃ x, y = f x ∧ x ∈ l.
Proof. change (map f l) with (f <$> l). apply list_elem_of_fmap. Qed.

Lemma elem_of_hits_of assign_df worker h :
  h ∈ WorkerSummary.hits_of assign_df worker ↔
  ∃ r, r ∈ assign_df ∧ AssignDf.worker_id r = worker ∧ AssignDf.hit_id r = h.
Proof.
  unfold WorkerSummary.hits_of. rewrite elem_of_map.
  split.
  - intros (r & -> & Hr). apply list_elem_of_filter in Hr as [Hw Hr]. eauto.
  - intros (r & Hr & Hw & <-). exists r. split; [done|].
    apply list_elem_of_filter. eauto.
Qed.

(** C9.  A worker with a submission in the frame has exactly one row in the
    worker summary, and its count is the number of distinct hit identifiers
    among that worker's submissions: the length of a duplicate-free list of
    exactly these identifiers. *)
Theorem worker_df_counts_distinct_hits (assign_df : list AssignDf.row) (worker : string) :
  worker ∈ map AssignDf.worker_id assign_df →
  ∃ n hs,
    (worker, n) ∈ WorkerSummary.worker_df assign_df ∧
    (∀ n', (worker, n') ∈ WorkerSummary.worker_df assign_df → n' = n) ∧
    NoDup hs ∧
    (∀ h, h ∈ hs ↔
       ∃ r, r ∈ assign_df ∧ AssignDf.worker_id r = worker ∧ AssignDf.hit_id r = h) ∧
    n = Z.of_nat (length hs).
Proof.
  intros Hin.
  set (S := list_to_set (WorkerSummary.hits_of assign_df worker) : gset string).
  exists (Z.of_nat (size S)), (elements S).
  unfold WorkerSummary.worker_df.
  split; [|split; [|split; [|split]]].
  - apply elem_of_map. exists worker. split; [done|].
    rewrite merge_sort_Permutation. apply elem_of_elements.
    by apply elem_of_list_to_set.
  - intros n' Hn'. apply elem_of_map in Hn' as (w' & Heq & _).
    by injection Heq as <- ->.
  - apply NoDup_elements.
  - intros h. unfold S. rewrite elem_of_elements, elem_of_list_to_set.
    apply elem_of_hits_of.
  - done.
Qed.

(** C9 at the sample frame: W1 has three submissions against two work
    units, and its row counts 2. *)
Lemma worker_df_counts_distinct_hits_witness :
  length (filter (λ r, AssignDf.worker_id r = "W1"%string) Samples.assign_df) = 3%nat ∧
  ("W1"%string, 2) ∈ WorkerSummary.worker_df Samples.assign_df.
Proof.
  split; [reflexivity|].
  destruct (worker_df_counts_distinct_hits Samples.assign_df "W1")
    as (n & hs & Hrow & Huniq & _).
  - apply list_elem_of_In. simpl. auto.
  - rewrite <- (Huniq 2) in Hrow; [exact Hrow|].
    apply list_elem_of_In. vm_compute. auto.
Defined.

(** * Further properties *)

(** ** The paginator: edge cases and invariants *)

Section paginate_more.
Context {World Resp Item : Type}.
Variable operation : option string → World → Resp * World.
Variable result_fn : Resp → list Item.
Variable NextToken : Resp → option string.

Abbreviation paginate_loop' := (Paginator.paginate_loop operation result_fn NextToken).
Abbreviation service_run' := (Paginator.service_run operation NextToken).
Abbreviation stopping' := (Paginator.stopping result_fn NextToken).
Abbreviation items_of' := (Paginator.items_of result_fn).

(** What holds whenever the loop ends, however it ends. *)
Lemma loop_safe fuel : ∀ max_results results cur trace w out trace' w',
  paginate_loop' fuel max_results results (result_fn cur) (NextToken cur) trace w
    = Some (out, trace', w') →
  ∃ more,
    trace' = trace ++ more ∧
    more = service_run' (length more) (NextToken cur) w ∧
    (∀ i r, (i < length more)%nat → (cur :: more) !! i = Some r → stopping' r = false) ∧
    (∀ res, out = Return res → res = results ++ items_of' more).
Proof.
  induction fuel as [|fuel IH]; intros max_results results cur trace w out trace' w';
    simpl; rewrite loop_condition;
    destruct (stopping' cur) eqn:Hcur; simpl.
  - intros [= <- <- <-]. exists []. rewrite !app_nil_r.
    repeat split; [simpl; lia|]. by intros ? [= <-].
  - destruct (Paginator.reached max_results results); [|done].
    intros [= <- <- <-]. exists []. rewrite !app_nil_r.
    repeat split; [simpl; lia|]. by intros ? [= <-].
  - intros [= <- <- <-]. exists []. rewrite !app_nil_r.
    repeat split; [simpl; lia|]. by intros ? [= <-].
  - destruct (Paginator.reached max_results results).
    { intros [= <- <- <-]. exists []. rewrite !app_nil_r.
      repeat split; [simpl; lia|]. by intros ? [= <-]. }
    destruct (operation (NextToken cur) w) as [resp w1] eqn:Hop.
    destruct max_results as [m|].
    + intros Hrun. apply IH in Hrun as (more & -> & Hmore & Hnon & Hres).
      exists (resp :: more). rewrite <- app_assoc. simpl.
      repeat split.
      * rewrite Hop. simpl. by rewrite <- Hmore.
      * intros [|i] r Hi Hr; simplify_eq/=; [done|]. apply (Hnon i); [lia|done].
      * intros res Hout. rewrite (Hres res Hout), <- app_assoc. done.
    + intros [= <- <- <-]. exists [resp]. simpl. rewrite Hop. simpl.
      repeat split; [|done].
      intros [|i] r Hi Hr; simplify_eq/=; [done|lia].
Qed.

Lemma service_run_lookup n : ∀ n' tok w i,
  (i < n)%nat → (i < n')%nat →
  service_run' n tok w !! i = service_run' n' tok w !! i.
Proof.
  induction n as [|n IH]; intros [|n'] tok w i Hi Hi'; try lia.
  rewrite !service_run_S. destruct i as [|i]; [done|]. simpl.
  apply IH; lia.
Qed.

End paginate_more.

Lemma paginate_trace_invariant_core {World Resp Item : Type}
    (operation : option string → World → Resp * World)
    (result_fn : Resp → list Item) (NextToken : Resp → option string)
    (fuel : nat) (max_results : option Z) (w : World)
    (out : result (list Item)) (trace : list Resp) (w' : World) :
  Paginator.paginate operation result_fn NextToken fuel max_results w
    = Some (out, trace, w') →
  trace = Paginator.service_run operation NextToken (length trace) None w ∧
  (∀ res, out = Return res → res = Paginator.items_of result_fn trace).
Proof.
  unfold Paginator.paginate.
  destruct (operation None w) as [resp w1] eqn:Hop. intros Hrun.
  apply loop_safe in Hrun as (more & -> & Hmore & _ & Hres).
  simpl. rewrite Hop. simpl. split.
  - by rewrite <- Hmore.
  - intros res Hout. by rewrite (Hres res Hout).
Qed.

(** X1.  Whenever [paginate] ends, by a return or by an exception, it has
    issued at least one call, each call after the first carried the cursor
    of the page before, every page but the last one fetched was non-empty
    and carried a non-empty cursor, and a returned list is the items of the
    fetched pages in order. *)
Theorem paginate_trace_invariant {World Resp Item : Type}
    (operation : option string → World → Resp * World)
    (result_fn : Resp → list Item) (NextToken : Resp → option string)
    (fuel : nat) (max_results : option Z) (w : World)
    (out : result (list Item)) (trace : list Resp) (w' : World) :
  Paginator.paginate operation result_fn NextToken fuel max_results w
    = Some (out, trace, w') →
  (1 ≤ length trace)%nat ∧
  trace = Paginator.service_run operation NextToken (length trace) None w ∧
  (∀ i r, (S i < length trace)%nat → trace !! i = Some r →
     Paginator.stopping result_fn NextToken r = false) ∧
  (∀ res, out = Return res → res = Paginator.items_of result_fn trace).
Proof.
  unfold Paginator.paginate.
  destruct (operation None w) as [resp w1] eqn:Hop. intros Hrun.
  apply loop_safe in Hrun as (more & -> & Hmore & Hnon & Hres).
  simpl. rewrite Hop. simpl. repeat split.
  - lia.
  - by rewrite <- Hmore.
  - intros i r Hi Hr. apply (Hnon i); [lia|done].
  - intros res Hout. by rewrite (Hres res Hout).
Qed.

Lemma paginate_trace_invariant_witness :
  (1 ≤ length [([1; 2; 3]%Z, Some "t1"%string); ([], Some "t2"%string)])%nat ∧
  [([1; 2; 3], Some "t1"%string); ([], Some "t2"%string)]
    = Paginator.service_run Samples.listing_gap snd 2 None tt ∧
  (∀ i r, (S i < 2)%nat →
     [([1; 2; 3], Some "t1"%string); ([], Some "t2"%string)] !! i = Some r →
     Paginator.stopping fst snd r = false) ∧
  (∀ res, Return [1; 2; 3] = Return res →
     res = Paginator.items_of fst
             [([1; 2; 3], Some "t1"%string); ([], Some "t2"%string)]).
Proof.
  apply (paginate_trace_invariant Samples.listing_gap fst snd 5 (Some 10) tt
           (Return [1; 2; 3])
           [([1; 2; 3], Some "t1"%string); ([], Some "t2"%string)] tt).
  reflexivity.
Defined.

(** X2.  Without a maximum ([max_results = None]) only a single page can be
    fetched: when the first page is non-empty and carries a cursor,
    [paginate] fetches the second page and then raises [TypeError], from
    the progress computation [len(results)/max_results]. *)
Theorem paginate_without_maximum_raises {World Resp Item : Type}
    (operation : option string → World → Resp * World)
    (result_fn : Resp → list Item) (NextToken : Resp → option string)
    (fuel : nat) (w : World) :
  Paginator.stopping result_fn NextToken (operation None w).1 = false →
  Paginator.paginate operation result_fn NextToken (S fuel) None w
    = Some (Raise TypeError,
            Paginator.service_run operation NextToken 2 None w,
            (operation (NextToken (operation None w).1) (operation None w).2).2).
Proof.
  unfold Paginator.paginate. simpl.
  destruct (operation None w) as [resp w1]. simpl. intros Hstop.
  rewrite loop_condition, Hstop. simpl.
  by destruct (operation (NextToken resp) w1) as [resp2 w2].
Qed.

Lemma paginate_without_maximum_raises_witness :
  Paginator.paginate Samples.listing_two fst snd 1 None tt
    = Some (Raise TypeError,
            Paginator.service_run Samples.listing_two snd 2 None tt,
            (Samples.listing_two (snd (Samples.listing_two None tt).1)
               (Samples.listing_two None tt).2).2).
Proof.
  apply (paginate_without_maximum_raises Samples.listing_two fst snd 0 tt).
  reflexivity.
Defined.

(** X3.  With a maximum of zero or less, [paginate] still fetches the first
    page and returns it whole, and issues no second call, whatever the
    page holds. *)
Theorem paginate_nonpositive_maximum {World Resp Item : Type}
    (operation : option string → World → Resp * World)
    (result_fn : Resp → list Item) (NextToken : Resp → option string)
    (fuel : nat) (m : Z) (w : World) :
  m ≤ 0 →
  Paginator.paginate operation result_fn NextToken fuel (Some m) w
    = Some (Return (result_fn (operation None w).1),
            [(operation None w).1], (operation None w).2).
Proof.
  intros Hm. unfold Paginator.paginate.
  destruct (operation None w) as [resp w1]. simpl.
  assert (Paginator.reached (Some m) (result_fn resp) = true) as Hreached.
  { apply Z.geb_le. lia. }
  destruct fuel; cbn [Paginator.paginate_loop]; rewrite loop_condition, Hreached;
    by destruct (Paginator.stopping result_fn NextToken resp).
Qed.

Lemma paginate_nonpositive_maximum_witness :
  Paginator.paginate Samples.listing_two fst snd 0 (Some 0) tt
    = Some (Return (fst (Samples.listing_two None tt).1),
            [(Samples.listing_two None tt).1], (Samples.listing_two None tt).2).
Proof.
  apply (paginate_nonpositive_maximum Samples.listing_two fst snd 0 0 tt). lia.
Defined.

(** X4.  When no response holds more than 100 items (the page size asked
    for) and the maximum [m] is at least 1, [paginate] returns fewer than
    [m + 100] items; it returns as soon as a page stops the loop or [m]
    items are accumulated. *)
Theorem paginate_overshoot_below_page_size {World Resp Item : Type}
    (operation : option string → World → Resp * World)
    (result_fn : Resp → list Item) (NextToken : Resp → option string)
    (m : Z) (fuel k : nat) (w : World) (r : Resp) :
  (∀ i resp,
     Paginator.service_run operation NextToken (S k) None w !! i = Some resp →
     (length (result_fn resp) ≤ 100)%nat) →
  1 ≤ m →
  (k ≤ fuel)%nat →
  Paginator.service_run operation NextToken (S k) None w !! k = Some r →
  Paginator.stopping result_fn NextToken r = true ∨
    m ≤ Z.of_nat (length (Paginator.items_of result_fn
                            (Paginator.service_run operation NextToken (S k) None w))) →
  ∃ results trace w',
    Paginator.paginate operation result_fn NextToken fuel (Some m) w
      = Some (Return results, trace, w') ∧
    Z.of_nat (length results) < m + 100.
Proof.
  intros Hpage Hm Hfuel Hk Hend. unfold Paginator.paginate.
  rewrite service_run_S in Hk, Hend, Hpage.
  destruct (operation None w) as [resp w1] eqn:Hop. simpl in Hk, Hend, Hpage |- *.
  rewrite items_of_cons in Hend.
  destruct (loop_returns operation result_fn NextToken m k fuel
              (result_fn resp) resp [resp] w1 r Hfuel Hk Hend)
    as (more & w' & Hrun & Hlen & Hmore & Hbound & _).
  eexists _, _, _. split; [exact Hrun|].
  destruct more as [|r0 more0 _] using rev_ind.
  - unfold Paginator.items_of. simpl. rewrite app_nil_r.
    specialize (Hpage O resp eq_refl). lia.
  - specialize (Hbound more0 r0 eq_refl).
    rewrite length_app in Hlen. simpl in Hlen.
    assert (Paginator.service_run operation NextToken k (NextToken resp) w1
              !! length more0 = Some r0) as Hr0.
    { rewrite <- (service_run_lookup operation NextToken (length (more0 ++ [r0])))
        by (rewrite ?length_app; simpl; lia).
      rewrite <- Hmore. by rewrite lookup_app_r, Nat.sub_diag by lia. }
    specialize (Hpage (S (length more0)) r0 Hr0).
    unfold Paginator.items_of in *.
    rewrite map_app, concat_app, app_assoc, length_app. simpl.
    rewrite app_nil_r. lia.
Qed.

Lemma paginate_overshoot_below_page_size_witness :
  ∃ results trace w',
    Paginator.paginate Samples.listing_gap fst snd 0 (Some 2) tt
      = Some (Return results, trace, w') ∧
    Z.of_nat (length results) < 2 + 100.
Proof.
  apply (paginate_overshoot_below_page_size Samples.listing_gap fst snd
           2 0 0 tt ([1; 2; 3], Some "t1"%string)).
  - intros [|i] resp Hresp; simplify_eq/=. lia.
  - lia.
  - lia.
  - reflexivity.
  - right. simpl. lia.
Defined.

(** ** The answer decoder: when it returns and how it fails *)

(** X5.  [parse_answer] returns a value exactly when the submission has an
    answer, the answer parses, the document holds exactly one [FreeText]
    element (at any depth), and the text nodes directly under it, joined by
    single blanks, are accepted by [json.loads]; the value is then what
    [json.loads] returns. *)
Theorem parse_answer_returns_iff
    (parseString : string → result Document) (json_loads : string → result pyval)
    (assign : assignment) (v : pyval) :
  Decoder.parse_answer parseString json_loads assign = Return v ↔
  ∃ xml doc free_text,
    Answer assign = Some xml ∧
    parseString xml = Return doc ∧
    getElementsByTagName "FreeText" doc = [free_text] ∧
    json_loads (String.concat " " (text_values free_text)) = Return v.
Proof.
  unfold Decoder.parse_answer. split.
  - destruct (Answer assign) as [xml|]; [simpl|done].
    destruct (parseString xml) as [doc|] eqn:Hdoc; [simpl|done].
    destruct (decide _) as [Hle|]; [|done].
    destruct (getElementsByTagName "FreeText" doc) as [|ft [|ft' fts]] eqn:Hfts;
      [done| |simpl in Hle; lia].
    intros Hv. by exists xml, doc, ft.
  - intros (xml & doc & ft & -> & Hdoc & Hfts & Hv). simpl.
    rewrite Hdoc. simpl. rewrite Hfts. simpl. done.
Qed.

(** X6.  The exceptions of [parse_answer], case by case: [KeyError] without
    an answer, the parser's exception for an answer that does not parse,
    [IndexError] for a document without [FreeText] element,
    [AssertionError] for two or more of them, and the exception of
    [json.loads] for the text of a single one. *)
Theorem parse_answer_raises_iff
    (parseString : string → result Document) (json_loads : string → result pyval)
    (assign : assignment) (e : exn) :
  Decoder.parse_answer parseString json_loads assign = Raise e ↔
  (Answer assign = None ∧ e = KeyError) ∨
  ∃ xml, Answer assign = Some xml ∧
    (parseString xml = Raise e ∨
     ∃ doc, parseString xml = Return doc ∧
       ((getElementsByTagName "FreeText" doc = [] ∧ e = IndexError) ∨
        ((2 ≤ length (getElementsByTagName "FreeText" doc))%nat ∧ e = AssertionError) ∨
        (∃ free_text,
           getElementsByTagName "FreeText" doc = [free_text] ∧
           json_loads (String.concat " " (text_values free_text)) = Raise e))).
Proof.
  unfold Decoder.parse_answer. split.
  - destruct (Answer assign) as [xml|]; simpl; [|intros [= <-]; by left].
    intros H. right. exists xml. split; [done|].
    destruct (parseString xml) as [doc|e'] eqn:Hdoc; simpl in H; [|left; congruence].
    right. exists doc. split; [done|].
    destruct (decide _) as [Hle|Hgt].
    + destruct (getElementsByTagName "FreeText" doc) as [|ft [|ft' fts]] eqn:Hfts.
      * injection H as <-. by left.
      * right. right. by exists ft.
      * simpl in Hle. lia.
    + injection H as <-. right. left. split; [lia|done].
  - intros [[-> ->]|(xml & -> & [Hraise|(doc & Hdoc & Hcases)])]; simpl; [done| |].
    + by rewrite Hraise.
    + rewrite Hdoc. simpl.
      destruct Hcases as [[Hfts ->]|[[Hlen ->]|(ft & Hfts & He)]].
      * rewrite Hfts. simpl. done.
      * destruct (decide _); [lia|done].
      * rewrite Hfts. simpl. done.
Qed.

(** ** The record normaliser *)

Lemma base_record_returns_iff assign :
  (∃ base, Decoder.base_record assign = Return base) ↔ has_base_fields assign.
Proof.
  unfold Decoder.base_record, has_base_fields. split.
  - intros [base H].
    destruct (AcceptTime assign), (SubmitTime assign), (HITId assign),
      (AssignmentId assign), (WorkerId assign), (AssignmentStatus assign);
      simpl in H; try discriminate H; repeat split; eauto.
  - intros ([? ->] & [? ->] & [? ->] & [? ->] & [? ->] & [? ->]). simpl. eauto.
Qed.

Lemma base_record_raises assign e :
  Decoder.base_record assign = Raise e → e = KeyError.
Proof.
  unfold Decoder.base_record.
  destruct (AcceptTime assign), (SubmitTime assign), (HITId assign),
    (AssignmentId assign), (WorkerId assign), (AssignmentStatus assign);
    simpl; intros H; try discriminate H; by injection H.
Qed.

Lemma parse_assignment_raises_base
    (parseString : string → result Document) (json_loads : string → result pyval)
    assign e :
  Decoder.parse_assignment parseString json_loads assign = Raise e ↔
  Decoder.base_record assign = Raise e.
Proof.
  unfold Decoder.parse_assignment.
  destruct (Decoder.base_record assign) as [base|e']; simpl; [|done].
  by destruct (Decoder.parse_answer parseString json_loads assign).
Qed.

Lemma parse_assignment_return_fields
    (parseString : string → result Document) (json_loads : string → result pyval)
    assign rec :
  Decoder.parse_assignment parseString json_loads assign = Return rec →
  has_base_fields assign.
Proof.
  intros Hrec. apply base_record_returns_iff.
  destruct (Decoder.base_record assign) as [base|e] eqn:Hbase; [eauto|].
  apply (parse_assignment_raises_base parseString json_loads) in Hbase.
  congruence.
Qed.

Lemma parse_assignment_raise_KeyError
    (parseString : string → result Document) (json_loads : string → result pyval)
    assign e :
  Decoder.parse_assignment parseString json_loads assign = Raise e → e = KeyError.
Proof.
  intros He. apply parse_assignment_raises_base in He.
  by eapply base_record_raises.
Qed.

(** X7.  [parse_assignment] returns a record exactly when the raw
    submission has its six base entries, whatever its answer holds; and
    the only exception it raises is [KeyError]. *)
Theorem parse_assignment_returns_iff
    (parseString : string → result Document) (json_loads : string → result pyval)
    (assign : assignment) :
  ((∃ rec, Decoder.parse_assignment parseString json_loads assign = Return rec) ↔
   has_base_fields assign) ∧
  (∀ e, Decoder.parse_assignment parseString json_loads assign = Raise e →
        e = KeyError).
Proof.
  split.
  - split.
    + intros [rec Hrec]. by eapply parse_assignment_return_fields.
    + intros Hfields. apply base_record_returns_iff in Hfields as [base Hbase].
      by eapply parse_assignment_base.
  - intros e. apply parse_assignment_raise_KeyError.
Qed.

(** X8.  The ['seconds'] entry of the dict literal is the whole seconds
    between acceptance and submission taken modulo one day: it lies in
    [0, 86400) also when the submission time is before the acceptance time,
    and it is the elapsed whole seconds when the two are less than a day
    apart, in this order. *)
Theorem base_record_seconds (assign : assignment) (accept submit : datetime)
    (base : pydict) :
  AcceptTime assign = Some accept →
  SubmitTime assign = Some submit →
  Decoder.base_record assign = Return base →
  dict_get base (KStr "seconds")
    = Some (PInt (whole_seconds submit accept mod 86400)) ∧
  0 ≤ whole_seconds submit accept mod 86400 < 86400 ∧
  (0 ≤ micros submit - micros accept < us_per_day →
   whole_seconds submit accept mod 86400 = whole_seconds submit accept).
Proof.
  intros Ha Hs Hbase. split; [|split].
  - unfold Decoder.base_record in Hbase. rewrite Ha, Hs in Hbase. simpl in Hbase.
    destruct (HITId assign), (AssignmentId assign), (WorkerId assign),
      (AssignmentStatus assign); simpl in Hbase; try discriminate Hbase.
    unfold mret, result_ret in Hbase. injection Hbase as <-.
    rewrite <- td_seconds_mod_day. reflexivity.
  - apply Z.mod_pos_bound. lia.
  - intros Hday. rewrite <- td_seconds_mod_day. by apply td_seconds_within_day.
Qed.

(** A submission submitted one second before it was accepted: 86399. *)
Lemma base_record_seconds_witness :
  dict_get [ (KStr "hit_id", PStr "H3"); (KStr "assign_id", PStr "A5");
             (KStr "worker_id", PStr "W4"); (KStr "assign_status", PStr "Submitted");
             (KStr "seconds", PInt 86399) ] (KStr "seconds")
    = Some (PInt (whole_seconds (mkDatetime 0) (mkDatetime 1000000) mod 86400)) ∧
  0 ≤ whole_seconds (mkDatetime 0) (mkDatetime 1000000) mod 86400 < 86400 ∧
  (0 ≤ micros (mkDatetime 0) - micros (mkDatetime 1000000) < us_per_day →
   whole_seconds (mkDatetime 0) (mkDatetime 1000000) mod 86400
     = whole_seconds (mkDatetime 0) (mkDatetime 1000000)).
Proof.
  apply (base_record_seconds Samples.sub_early (mkDatetime 1000000) (mkDatetime 0)).
  - reflexivity.
  - reflexivity.
  - reflexivity.
Defined.

(** ** Keys are never removed *)

Lemma dict_set_is_Some d k v k' :
  is_Some (dict_get d k') → is_Some (dict_get (dict_set d k v) k').
Proof.
  induction d as [|[k0 v0] d IH]; simpl; [by intros [? ?]|].
  destruct (key_eqb k0 k); simpl; destruct (key_eqb k0 k'); eauto.
Qed.

Lemma dict_merge_is_Some items : ∀ d k',
  is_Some (dict_get d k') → is_Some (dict_get (dict_merge d items) k').
Proof.
  induction items as [|[k v] items IH]; intros d k' H; [done|].
  apply IH. by apply dict_set_is_Some.
Qed.

Lemma dict_merge_seq_is_Some seq : ∀ d k',
  is_Some (dict_get d k') → is_Some (dict_get (dict_merge_seq d seq).1 k').
Proof.
  induction seq as [|item seq IH]; intros d k' H; simpl; [done|].
  destruct (sequence_of item) as [[|k [|v [|? ?]]]|]; simpl; try done.
  destruct (to_key k); simpl; [|done].
  apply IH. by apply dict_set_is_Some.
Qed.

Lemma dict_update_is_Some d other k' :
  is_Some (dict_get d k') → is_Some (dict_get (dict_update d other).1 k').
Proof.
  intros H. destruct other; simpl; try done.
  - by apply dict_merge_seq_is_Some.
  - by apply dict_merge_seq_is_Some.
  - by apply dict_merge_is_Some.
Qed.

Lemma base_record_keys assign base k :
  Decoder.base_record assign = Return base →
  k ∈ base_keys → is_Some (dict_get base (KStr k)).
Proof.
  unfold Decoder.base_record. intros H Hk.
  destruct (AcceptTime assign), (SubmitTime assign), (HITId assign),
    (AssignmentId assign), (WorkerId assign), (AssignmentStatus assign);
    simpl in H; try discriminate H.
  unfold mret, result_ret in H. injection H as <-.
  apply list_elem_of_In in Hk. simpl in Hk.
  destruct Hk as [<-|[<-|[<-|[<-|[<-|[]]]]]]; cbn; eauto.
Qed.

Lemma parse_assignment_keys
    (parseString : string → result Document) (json_loads : string → result pyval)
    assign rec k :
  Decoder.parse_assignment parseString json_loads assign = Return rec →
  k ∈ base_keys → is_Some (dict_get rec (KStr k)).
Proof.
  unfold Decoder.parse_assignment. intros H Hk.
  destruct (Decoder.base_record assign) as [base|] eqn:Hbase; simpl in H; [|done].
  pose proof (base_record_keys assign base k Hbase Hk) as Hsome.
  destruct (Decoder.parse_answer parseString json_loads assign) as [more|];
    unfold mret, result_ret in H; injection H as <-; [|done].
  by apply dict_update_is_Some.
Qed.

(** X9.  Every record [parse_assignment] returns has the five keys of the
    dict literal, whatever the answer decodes to: a mapping, a list, a
    string or a scalar, or nothing at all.  Merging never removes a key. *)
Theorem parse_assignment_keeps_base_keys
    (parseString : string → result Document) (json_loads : string → result pyval)
    (assign : assignment) (rec : pydict) :
  Decoder.parse_assignment parseString json_loads assign = Return rec →
  Forall (λ k, is_Some (dict_get rec (KStr k))) base_keys.
Proof.
  intros H. apply Forall_forall. intros k Hk. by eapply parse_assignment_keys.
Qed.

Lemma parse_assignment_keeps_base_keys_witness :
  Forall (λ k, is_Some (dict_get
                          [ (KStr "hit_id", PStr "H1"); (KStr "assign_id", PStr "A1");
                            (KStr "worker_id", PStr "W9");
                            (KStr "assign_status", PStr "Submitted");
                            (KStr "seconds", PInt 5); (KStr "score", PInt 7) ]
                          (KStr k))) base_keys.
Proof.
  apply (parse_assignment_keeps_base_keys Samples.parseString Samples.json_loads
           Samples.sub_override).
  reflexivity.
Defined.

(** ** The retrieval loop: what every record holds, and when it aborts *)

(** X10.  When every raw submission has its base entries, every record the
    loop returns holds the selected type identifier under ['hit_type_id'],
    even when the payload has a field of that name, and has the five base
    keys, so that selecting the columns ['worker_id'], ['hit_id'] and
    ['assign_status'] from the records finds each of them. *)
Theorem retrieve_assignments_record_keys
    (parseString : string → result Document) (json_loads : string → result pyval)
    {World : Type}
    (list_assignments_for_hit : string → World → option (list assignment) * World)
    (hit_type_id : string) (hit_ids : list string) (w : World) :
  (∀ a, a ∈ Decoder.raw_batch list_assignments_for_hit hit_ids w →
        has_base_fields a) →
  ∃ recs w',
    Decoder.retrieve_assignments parseString json_loads list_assignments_for_hit
      hit_type_id hit_ids w = (Return recs, w') ∧
    Forall (λ rec,
              dict_get rec (KStr "hit_type_id") = Some (PStr hit_type_id) ∧
              Forall (λ k, is_Some (dict_get rec (KStr k))) base_keys) recs.
Proof.
  intros Hbase. unfold Decoder.retrieve_assignments.
  destruct (retrieve_loop_all parseString json_loads list_assignments_for_hit
              hit_type_id hit_ids [] w)
    as (recs & w' & Hrun & Hall).
  { intros a Ha. apply base_record_returns_iff. by apply Hbase. }
  exists recs, w'. split; [done|].
  apply Forall_forall. intros rec Hrec.
  apply list_elem_of_lookup in Hrec as [i Hi].
  destruct (Forall2_lookup_r _ _ _ _ _ Hall Hi) as (a & _ & parsed & Hp & ->).
  split.
  - rewrite dict_get_set_str. by rewrite String.eqb_refl.
  - apply Forall_forall. intros k Hk. apply dict_set_is_Some.
    by eapply parse_assignment_keys.
Qed.

Lemma retrieve_assignments_record_keys_witness :
  ∃ recs w',
    Decoder.retrieve_assignments Samples.parseString Samples.json_loads
      Samples.list_assignments_for_hit "T" ["H1"; "H2"]%string tt = (Return recs, w') ∧
    Forall (λ rec,
              dict_get rec (KStr "hit_type_id") = Some (PStr "T") ∧
              Forall (λ k, is_Some (dict_get rec (KStr k))) base_keys) recs.
Proof.
  apply (retrieve_assignments_record_keys Samples.parseString Samples.json_loads
           Samples.list_assignments_for_hit "T" ["H1"; "H2"]%string tt).
  intros a Ha. apply list_elem_of_In in Ha. simpl in Ha.
  destruct Ha as [<-|[<-|[<-|[]]]]; repeat split; eexists; reflexivity.
Defined.

Lemma parse_each_raises
    (parseString : string → result Document) (json_loads : string → result pyval)
    ty raws : ∀ acc,
  (∃ a, a ∈ raws ∧ ¬ has_base_fields a) →
  Decoder.parse_each parseString json_loads ty raws acc = Raise KeyError.
Proof.
  induction raws as [|a raws IH]; intros acc (bad & Hin & Hbad); simpl.
  - by apply elem_of_nil in Hin.
  - destruct (Decoder.parse_assignment parseString json_loads a) as [parsed|e] eqn:Hp;
      simpl.
    + apply IH. exists bad. split; [|done].
      apply elem_of_cons in Hin as [->|Hin]; [|done].
      exfalso. apply Hbad. by eapply parse_assignment_return_fields.
    + f_equal. by eapply parse_assignment_raise_KeyError.
Qed.

Lemma parse_each_outcome
    (parseString : string → result Document) (json_loads : string → result pyval)
    ty raws : ∀ acc,
  (∃ acc', Decoder.parse_each parseString json_loads ty raws acc = Return acc') ∨
  Decoder.parse_each parseString json_loads ty raws acc = Raise KeyError.
Proof.
  induction raws as [|a raws IH]; intros acc; simpl; [left; eauto|].
  destruct (Decoder.parse_assignment parseString json_loads a) as [parsed|e] eqn:Hp;
    simpl; [apply IH|].
  right. f_equal. by eapply parse_assignment_raise_KeyError.
Qed.

Lemma retrieve_loop_raises
    (parseString : string → result Document) (json_loads : string → result pyval)
    {World : Type}
    (list_assignments_for_hit : string → World → option (list assignment) * World)
    ty hit_ids : ∀ acc w,
  (∃ a, a ∈ Decoder.raw_batch list_assignments_for_hit hit_ids w ∧
        ¬ has_base_fields a) →
  ∃ w', Decoder.retrieve_loop parseString json_loads list_assignments_for_hit
          ty hit_ids acc w = (Raise KeyError, w').
Proof.
  induction hit_ids as [|hit_id hit_ids IH]; intros acc w (bad & Hin & Hbad);
    simpl in *.
  - by apply elem_of_nil in Hin.
  - destruct (list_assignments_for_hit hit_id w) as [resp w1].
    destruct (parse_each_outcome parseString json_loads ty (default [] resp) acc)
      as [[acc' Hacc]|Hraise]; [|rewrite Hraise; eauto].
    rewrite Hacc. apply IH. exists bad. split; [|done].
    apply elem_of_app in Hin as [Hin|Hin]; [|done].
    rewrite parse_each_raises in Hacc by eauto. done.
Qed.

(** X11.  A raw submission that lacks one of its six base entries makes the
    whole retrieval raise [KeyError]: no record is returned, neither of the
    submissions before it nor of those after it. *)
Theorem retrieve_assignments_aborts_on_missing_field
    (parseString : string → result Document) (json_loads : string → result pyval)
    {World : Type}
    (list_assignments_for_hit : string → World → option (list assignment) * World)
    (hit_type_id : string) (hit_ids : list string) (w : World) (a : assignment) :
  a ∈ Decoder.raw_batch list_assignments_for_hit hit_ids w →
  ¬ has_base_fields a →
  ∃ w',
    Decoder.retrieve_assignments parseString json_loads list_assignments_for_hit
      hit_type_id hit_ids w = (Raise KeyError, w').
Proof.
  intros Hin Hbad. unfold Decoder.retrieve_assignments.
  apply retrieve_loop_raises. eauto.
Qed.

Lemma retrieve_assignments_aborts_on_missing_field_witness :
  ∃ w',
    Decoder.retrieve_assignments Samples.parseString Samples.json_loads
      Samples.list_assignments_bad "T" ["H1"; "H4"]%string tt = (Raise KeyError, w').
Proof.
  apply (retrieve_assignments_aborts_on_missing_field Samples.parseString
           Samples.json_loads Samples.list_assignments_bad "T" ["H1"; "H4"]%string tt
           Samples.sub_no_worker).
  - apply list_elem_of_In. simpl. auto.
  - intros (_ & _ & _ & _ & [? Hw] & _). discriminate Hw.
Defined.

(** ** The WorkUnit summary: groups and counts *)

Lemma list_to_set_same_elements `{Countable A} (l1 l2 : list A) :
  (∀ x, x ∈ l1 ↔ x ∈ l2) → (list_to_set l1 : gset A) = list_to_set l2.
Proof.
  intros Hsame. apply set_eq. intros x. by rewrite !elem_of_list_to_set.
Qed.

Lemma select_cols_key k n :
  HitSummary.summary_key (HitSummary.select_cols (k, n)) = k.
Proof. by destruct k as [[[ty ti] st] rv]. Qed.

Lemma select_cols_n_hits k n :
  Summary.n_hits (HitSummary.select_cols (k, n)) = n.
Proof. by destruct k as [[[ty ti] st] rv]. Qed.

(** The rows of the summary, up to their order. *)
Lemma to_hit_summary_rows hit_df :
  HitSummary.to_hit_summary hit_df ≡ₚ
  map (λ k, HitSummary.select_cols (k, HitSummary.nunique hit_df k))
    (elements (list_to_set (map HitSummary.group_key hit_df) : gset HitSummary.key)).
Proof.
  unfold HitSummary.to_hit_summary, HitSummary.groupby_nunique.
  rewrite merge_sort_Permutation, map_map.
  apply Permutation_map, merge_sort_Permutation.
Qed.

(** X12.  The summary depends on which rows the frame holds, not on how
    often or in which order: two frames with the same rows, one of which
    may list some of them several times, have the same summary. *)
Theorem to_hit_summary_same_rows (hit_df hit_df' : list HitDf.row) :
  (∀ r, r ∈ hit_df ↔ r ∈ hit_df') →
  HitSummary.to_hit_summary hit_df = HitSummary.to_hit_summary hit_df'.
Proof.
  intros Hsame. unfold HitSummary.to_hit_summary, HitSummary.groupby_nunique.
  do 2 f_equal.
  assert (∀ {B} (f : HitDf.row → B) (P : HitDf.row → Prop) `{∀ r, Decision (P r)} y,
            y ∈ map f (filter P hit_df) ↔ y ∈ map f (filter P hit_df')) as Hmap.
  { intros B f P HP y. rewrite !elem_of_map.
    split; intros (r & -> & Hr); exists r; (split; [done|]);
      apply list_elem_of_filter in Hr as [HPr Hr]; apply list_elem_of_filter;
      (split; [done|]); by apply Hsame. }
  replace (list_to_set (map HitSummary.group_key hit_df') : gset HitSummary.key)
    with (list_to_set (map HitSummary.group_key hit_df) : gset HitSummary.key).
  - apply map_ext. intros k. f_equal. unfold HitSummary.nunique. do 2 f_equal.
    apply list_to_set_same_elements. intros h. apply Hmap.
  - apply list_to_set_same_elements. intros k.
    rewrite !elem_of_map. split; intros (r & -> & Hr); exists r; (split; [done|]);
      by apply Hsame.
Qed.

(** The sample frame, and the same frame with every row listed twice. *)
Lemma to_hit_summary_same_rows_witness :
  HitSummary.to_hit_summary Samples.hit_df
    = HitSummary.to_hit_summary (Samples.hit_df ++ Samples.hit_df).
Proof.
  apply (to_hit_summary_same_rows Samples.hit_df (Samples.hit_df ++ Samples.hit_df)).
  intros r. rewrite elem_of_app. tauto.
Defined.

(** X13.  The summary has one row per group that occurs in the frame: the
    group keys of its rows are without duplicates and are exactly the keys
    of the rows of the frame; and the count of a row is the number of
    distinct hit identifiers in its group, which is at least 1. *)
Theorem to_hit_summary_groups (hit_df : list HitDf.row) :
  NoDup (map HitSummary.summary_key (HitSummary.to_hit_summary hit_df)) ∧
  (∀ k, k ∈ map HitSummary.summary_key (HitSummary.to_hit_summary hit_df) ↔
        k ∈ map HitSummary.group_key hit_df) ∧
  (∀ row, row ∈ HitSummary.to_hit_summary hit_df →
     ∃ hs, NoDup hs ∧
           (∀ h, h ∈ hs ↔
              ∃ r, r ∈ hit_df ∧
                   HitSummary.group_key r = HitSummary.summary_key row ∧
                   HitDf.hit_id r = h) ∧
           Summary.n_hits row = Z.of_nat (length hs) ∧
           1 ≤ Summary.n_hits row).
Proof.
  pose proof (to_hit_summary_rows hit_df) as Hrows.
  set (keys := list_to_set (map HitSummary.group_key hit_df) : gset HitSummary.key)
    in Hrows.
  assert (map HitSummary.summary_key (HitSummary.to_hit_summary hit_df)
            ≡ₚ elements keys) as Hkeys.
  { rewrite Hrows, map_map. erewrite map_ext; [by rewrite map_id|].
    intros k. apply select_cols_key. }
  split; [|split].
  - rewrite Hkeys. apply NoDup_elements.
  - intros k. rewrite Hkeys. unfold keys.
    by rewrite elem_of_elements, elem_of_list_to_set.
  - intros row Hrow. rewrite Hrows in Hrow.
    apply elem_of_map in Hrow as (k & -> & Hk).
    rewrite select_cols_key, select_cols_n_hits.
    apply elem_of_elements, elem_of_list_to_set, elem_of_map in Hk
      as (r0 & -> & Hr0).
    set (S := list_to_set
                (map HitDf.hit_id
                   (filter (λ r, HitSummary.group_key r = HitSummary.group_key r0)
                      hit_df)) : gset string).
    assert (∀ h, h ∈ S ↔
              ∃ r, r ∈ hit_df ∧
                   HitSummary.group_key r = HitSummary.group_key r0 ∧
                   HitDf.hit_id r = h) as HS.
    { intros h. unfold S. rewrite elem_of_list_to_set, elem_of_map. split.
      - intros (r & -> & Hr). apply list_elem_of_filter in Hr as [? ?]. eauto.
      - intros (r & Hr & Hkey & <-). exists r. split; [done|].
        by apply list_elem_of_filter. }
    exists (elements S). repeat split.
    + apply NoDup_elements.
    + intros Hh. apply HS. by apply elem_of_elements.
    + intros Hh. apply elem_of_elements. by apply HS.
    + assert (HitDf.hit_id r0 ∈ S) as Hin by (apply HS; eauto).
      assert (size S ≠ 0%nat); [|unfold HitSummary.nunique; fold S; lia].
      apply size_non_empty_iff. intros Hempty. rewrite Hempty in Hin.
      by apply not_elem_of_empty in Hin.
Qed.

(** Sums over a list of keys. *)
Lemma sum_perm (l1 l2 : list Z) :
  l1 ≡ₚ l2 → foldr Z.add 0 l1 = foldr Z.add 0 l2.
Proof. induction 1; simpl; lia. Qed.

Lemma sum_map_add {A} (f g : A → Z) (ks : list A) :
  foldr Z.add 0 (map (λ k, f k + g k) ks)
    = foldr Z.add 0 (map f ks) + foldr Z.add 0 (map g ks).
Proof. induction ks; simpl; lia. Qed.

Lemma sum_map_zero {A} (ks : list A) :
  foldr Z.add 0 (map (λ _, 0) ks) = 0.
Proof. induction ks; simpl; lia. Qed.

Lemma sum_indicator `{EqDecision A} (x : A) (ks : list A) :
  NoDup ks → x ∈ ks →
  foldr Z.add 0 (map (λ k, if decide (x = k) then 1 else 0) ks) = 1.
Proof.
  induction 1 as [|k ks Hk Hks IH]; intros Hx; [by apply elem_of_nil in Hx|].
  simpl. destruct (decide (x = k)) as [->|Hne].
  - rewrite (map_ext_in _ (λ _, 0)); [rewrite sum_map_zero; lia|].
    intros k' Hk'. destruct (decide (k = k')) as [<-|]; [|done].
    by apply list_elem_of_In in Hk'.
  - apply elem_of_cons in Hx as [?|Hx]; [done|]. rewrite IH; [lia|done].
Qed.

(** The rows of a frame, counted group by group. *)
Lemma sum_group_sizes (l : list HitDf.row) (ks : list HitSummary.key) :
  NoDup ks →
  (∀ r, r ∈ l → HitSummary.group_key r ∈ ks) →
  foldr Z.add 0
    (map (λ k, Z.of_nat (length (filter (λ r, HitSummary.group_key r = k) l))) ks)
    = Z.of_nat (length l).
Proof.
  intros Hks. induction l as [|r l IH]; intros Hl.
  - simpl. apply sum_map_zero.
  - rewrite (map_ext _
      (λ k, (if decide (HitSummary.group_key r = k) then 1 else 0)
            + Z.of_nat (length (filter (λ r, HitSummary.group_key r = k) l)))).
    + rewrite sum_map_add, sum_indicator, IH; simpl length; try lia; try done.
      * intros r' Hr'. apply Hl. by right.
      * apply Hl. by left.
    + intros k. rewrite filter_cons.
      destruct (decide (HitSummary.group_key r = k)); simpl; lia.
Qed.

Lemma NoDup_map_filter {A B} (f : A → B) (P : A → Prop) `{∀ x, Decision (P x)}
    (l : list A) :
  NoDup (map f l) → NoDup (map f (filter P l)).
Proof.
  intros Hl. eapply sublist_NoDup; [exact Hl|].
  change (f <$> filter P l `sublist_of` f <$> l).
  apply fmap_sublist, sublist_filter.
Qed.

(** X14.  When no hit identifier occurs twice in the frame, the counts of
    the summary add up to the number of rows of the frame: every work unit
    is counted in exactly one group. *)
Theorem to_hit_summary_counts_add_up (hit_df : list HitDf.row) :
  NoDup (map HitDf.hit_id hit_df) →
  total_hits (HitSummary.to_hit_summary hit_df) = Z.of_nat (length hit_df).
Proof.
  intros Hids. unfold total_hits.
  rewrite (sum_perm _ _ (Permutation_map Summary.n_hits (to_hit_summary_rows hit_df))).
  rewrite map_map.
  rewrite (map_ext _
    (λ k, Z.of_nat (length (filter (λ r, HitSummary.group_key r = k) hit_df)))).
  - apply sum_group_sizes; [apply NoDup_elements|].
    intros r Hr. apply elem_of_elements, elem_of_list_to_set, elem_of_map. eauto.
  - intros k. rewrite select_cols_n_hits. unfold HitSummary.nunique. f_equal.
    rewrite size_list_to_set; [by rewrite !length_map|].
    by apply NoDup_map_filter.
Qed.

Lemma to_hit_summary_counts_add_up_witness :
  total_hits (HitSummary.to_hit_summary Samples.hit_df)
    = Z.of_nat (length Samples.hit_df).
Proof.
  apply (to_hit_summary_counts_add_up Samples.hit_df).
  refine (bool_decide_unpack _ _). vm_compute. exact I.
Defined.

(** ** The worker summary *)

Global Instance string_le_total : Total string_le.
Proof.
  intros s1 s2. unfold string_le.
  rewrite (String.compare_antisym s2 s1). apply not_Gt_total.
Qed.

Global Instance string_le_trans : Transitive string_le.
Proof.
  intros s1 s2 s3 H12 H23. unfold string_le in *.
  by apply (coherent_string s1 s2 s3).
Qed.

Lemma worker_df_workers assign_df :
  map fst (WorkerSummary.worker_df assign_df)
    = merge_sort string_le
        (elements (list_to_set (map AssignDf.worker_id assign_df) : gset string)).
Proof.
  unfold WorkerSummary.worker_df. rewrite map_map. simpl. apply map_id.
Qed.

(** X15.  The worker summary has one row per worker with a submission in
    the frame, in ascending order of the worker identifiers: its worker
    column is sorted, without duplicates, and holds exactly the workers of
    the frame. *)
Theorem worker_df_one_sorted_row_per_worker (assign_df : list AssignDf.row) :
  StronglySorted string_le (map fst (WorkerSummary.worker_df assign_df)) ∧
  NoDup (map fst (WorkerSummary.worker_df assign_df)) ∧
  (∀ w, w ∈ map fst (WorkerSummary.worker_df assign_df) ↔
        w ∈ map AssignDf.worker_id assign_df).
Proof.
  rewrite worker_df_workers. split; [|split].
  - apply (StronglySorted_merge_sort string_le).
  - rewrite merge_sort_Permutation. apply NoDup_elements.
  - intros w. by rewrite merge_sort_Permutation, elem_of_elements, elem_of_list_to_set.
Qed.




(** ** Discovery *)

Lemma loop_with_maximum_returns {World Resp Item : Type}
    (operation : option string → World → Resp * World)
    (result_fn : Resp → list Item) (NextToken : Resp → option string)
    (m : Z) fuel : ∀ results local_results next_token trace w out trace' w',
  Paginator.paginate_loop operation result_fn NextToken fuel (Some m)
    results local_results next_token trace w = Some (out, trace', w') →
  ∃ res, out = Return res.
Proof.
  induction fuel as [|fuel IH]; intros results local tok trace w out trace' w'; simpl;
    destruct (truthy_list local && truthy_token tok);
    try (intros [= <- <- <-]; eauto; fail);
    destruct (Z.of_nat (length results) >=? m);
    try (intros [= <- <- <-]; eauto; fail); try done.
  destruct (operation tok w) as [resp w1]. apply IH.
Qed.

Lemma mapM_subscript_Return {A B} (f : A → option B) (l : list A) (k : list B) :
  mapM (λ x, subscript (f x)) l = Return k ↔ map f l = map Some k.
Proof.
  revert k. induction l as [|x l IH]; intros k; simpl.
  - unfold mret, result_ret. split.
    + by intros [= <-].
    + destruct k; [done|]. intros [=].
  - destruct (f x) as [y|]; simpl.
    + destruct (mapM (λ x, subscript (f x)) l) as [k'|e] eqn:Hl; simpl.
      * unfold mret, result_ret. split.
        -- intros [= <-]. simpl. f_equal. by apply IH.
        -- destruct k as [|y' k]; [done|]. intros [= <- Hk].
           do 2 f_equal. apply IH in Hk. congruence.
      * split; [done|]. destruct k as [|y' k]; [done|]. intros [= <- Hk].
        apply IH in Hk. congruence.
    + split; [done|]. destruct k; intros [=].
Qed.

Lemma mapM_subscript_Raise {A B} (f : A → option B) (l : list A) (e : exn) :
  mapM (λ x, subscript (f x)) l = Raise e → e = KeyError ∧ ∃ x, x ∈ l ∧ f x = None.
Proof.
  induction l as [|x l IH]; simpl; [done|].
  destruct (f x) as [y|] eqn:Hx; simpl.
  - destruct (mapM (λ x, subscript (f x)) l) as [k'|e'] eqn:Hl; simpl; [done|].
    intros [= <-]. destruct (IH eq_refl) as (-> & x' & Hin & Hx').
    split; [done|]. exists x'. split; [by right|done].
  - intros [= <-]. split; [done|]. exists x. split; [by left|done].
Qed.

(** X17.  Whenever [get_reviewable_hits] ends, it has followed the cursors
    of the service from the first page on, and either returns the
    identifiers of the work units on the fetched pages, in page order, or
    raises [KeyError] because one of these work units has no ['HITId']; a
    response without ['HITs'] counts as an empty page.  It raises nothing
    else. *)
Theorem get_reviewable_hits_outcome {World : Type}
    (list_reviewable_hits :
       Client.client → string → option string → World → Hit.response * World)
    (mturk_client : Client.client) (hit_type_id : string) (fuel : nat) (w : World)
    (out : result (list string)) (w' : World) :
  Dashboard.get_reviewable_hits list_reviewable_hits mturk_client hit_type_id fuel w
    = Some (out, w') →
  ∃ trace,
    trace = Paginator.service_run (list_reviewable_hits mturk_client hit_type_id)
              Hit.NextToken (length trace) None w ∧
    match out with
    | Return hit_ids =>
        map Hit.HITId
          (Paginator.items_of (λ resp, default [] (Hit.HITs resp)) trace)
        = map Some hit_ids
    | Raise e =>
        e = KeyError ∧
        ∃ h, h ∈ Paginator.items_of (λ resp, default [] (Hit.HITs resp)) trace ∧
             Hit.HITId h = None
    end.
Proof.
  unfold Dashboard.get_reviewable_hits.
  destruct (Paginator.paginate _ _ _ _ _ _) as [[[pout trace] w1]|] eqn:Hrun; [|done].
  pose proof Hrun as Hinv. apply paginate_trace_invariant_core in Hinv
    as (Htrace & Hres).
  destruct pout as [rev_hits|e].
  - intros [= <- <-]. exists trace. split; [done|]. rewrite (Hres _ eq_refl).
    destruct (mapM _ _) as [ids|e] eqn:Hids.
    + symmetry. by apply mapM_subscript_Return in Hids.
    + by apply mapM_subscript_Raise in Hids.
  - exfalso. unfold Paginator.paginate in Hrun.
    destruct (list_reviewable_hits mturk_client hit_type_id None w) as [resp w0].
    apply loop_with_maximum_returns in Hrun as [res Hres']. done.
Qed.

Lemma get_reviewable_hits_outcome_witness :
  ∃ trace,
    trace = Paginator.service_run
              (Samples.list_reviewable_hits (Client.mkClient Client.sandbox_url "us-east-1") "A")
              Hit.NextToken (length trace) None tt ∧
    map Hit.HITId (Paginator.items_of (λ resp, default [] (Hit.HITs resp)) trace)
      = map Some ["H1"; "H2"]%string.
Proof.
  apply (get_reviewable_hits_outcome Samples.list_reviewable_hits
           (Client.mkClient Client.sandbox_url "us-east-1") "A" 1 tt
           (Return ["H1"; "H2"]%string) tt).
  reflexivity.
Defined.

(** ** Review *)

(** X18.  [review_assignments] never returns records.  Called with the name
    of an environment, it makes the client and runs the discovery; when the
    discovery returns identifiers, it hands the client to
    [retrieve_assignments] where the name of the environment belongs, and
    [env.lower()] raises [AttributeError] before any submission is
    requested: the world is the one the discovery left. *)
Theorem review_assignments_never_returns
    (parseString : string → result Document) (json_loads : string → result pyval)
    {World : Type}
    (list_reviewable_hits :
       Client.client → string → option string → World → Hit.response * World)
    (list_assignments_for_hit :
       Client.client → string → World → option (list assignment) * World)
    (mturk_env : Client.env_arg) (hit_type_id : string) (fuel : nat) (w : World)
    (out : Client.failure + list pydict) (w' : World) :
  Dashboard.review_assignments parseString json_loads list_reviewable_hits
    list_assignments_for_hit mturk_env hit_type_id fuel w = Some (out, w') →
  (∃ f, out = inl f) ∧
  (∀ mturk_client hit_ids w1,
     Client.get_mturk_client mturk_env = inr mturk_client →
     Dashboard.get_reviewable_hits list_reviewable_hits mturk_client hit_type_id fuel w
       = Some (Return hit_ids, w1) →
     out = inl Client.AttributeError ∧ w' = w1).
Proof.
  unfold Dashboard.review_assignments.
  destruct (Client.get_mturk_client mturk_env) as [f|mturk_client].
  { intros [= <- <-]. split; [eauto|]. intros ? ? ? [=]. }
  destruct (Dashboard.get_reviewable_hits list_reviewable_hits mturk_client
              hit_type_id fuel w) as [[[hit_ids|e] w1]|] eqn:Hdisc; [| |done].
  - unfold Dashboard.retrieve_assignments. simpl. intros [= <- <-].
    split; [eauto|]. intros c ids w2 [= <-] Hd.
    rewrite Hdisc in Hd. by injection Hd as <- <-.
  - intros [= <- <-]. split; [eauto|]. intros c ids w2 [= <-] Hd.
    rewrite Hdisc in Hd. discriminate Hd.
Qed.

Lemma review_assignments_never_returns_witness :
  (∃ f, @inl Client.failure (list pydict) Client.AttributeError = inl f) ∧
  (∀ mturk_client hit_ids w1,
     Client.get_mturk_client (Client.EnvName "Sandbox") = inr mturk_client →
     Dashboard.get_reviewable_hits Samples.list_reviewable_hits mturk_client "A" 1 tt
       = Some (Return hit_ids, w1) →
     @inl Client.failure (list pydict) Client.AttributeError = inl Client.AttributeError
     ∧ tt = w1).
Proof.
  apply (review_assignments_never_returns Samples.parseString Samples.json_loads
           Samples.list_reviewable_hits Samples.list_assignments_of
           (Client.EnvName "Sandbox") "A" 1 tt (inl Client.AttributeError) tt).
  reflexivity.
Defined.

(** ** The endpoint of a client *)

Lemma is_capital_iff (n : N) :
  ((65 <=? n) && (n <=? 90) || (192 <=? n) && (n <=? 222) && negb (n =? 215))%N = true
  ↔ (65 ≤ n ≤ 90 ∨ (192 ≤ n ≤ 222 ∧ n ≠ 215))%N.
Proof.
  rewrite orb_true_iff, !andb_true_iff, negb_true_iff, !N.leb_le, N.eqb_neq.
  tauto.
Qed.

Lemma lower_char_small (c t : ascii) :
  (97 ≤ N_of_ascii t ≤ 122)%N →
  Client.lower_char c = t ↔ Client.same_letter c t.
Proof.
  intros Ht. unfold Client.lower_char, Client.same_letter.
  pose proof (is_capital_iff (N_of_ascii c)) as Hcap.
  destruct ((65 <=? N_of_ascii c) && (N_of_ascii c <=? 90)
            || (192 <=? N_of_ascii c) && (N_of_ascii c <=? 222)
               && negb (N_of_ascii c =? 215))%N.
  - assert (65 ≤ N_of_ascii c ≤ 90 ∨ (192 ≤ N_of_ascii c ≤ 222 ∧ N_of_ascii c ≠ 215))%N
      as Hup by (by apply Hcap).
    split.
    + intros Hlow. right.
      assert (N_of_ascii c + 32 = N_of_ascii t)%N as Heq.
      { rewrite <- Hlow, N_ascii_embedding; [done|lia]. }
      rewrite <- Heq, N.add_sub. by rewrite ascii_N_embedding.
    + intros [->| ->]; [lia|].
      rewrite N_ascii_embedding by lia.
      rewrite N.sub_add by lia. apply ascii_N_embedding.
  - assert (¬ (65 ≤ N_of_ascii c ≤ 90 ∨ (192 ≤ N_of_ascii c ≤ 222 ∧ N_of_ascii c ≠ 215))%N)
      as Hup by (intros H; by apply Hcap in H).
    split.
    + by left.
    + intros [->| ->]; [done|].
      rewrite N_ascii_embedding in Hup by lia. lia.
Qed.

Lemma lower_small_iff (t : string) : ∀ s,
  Forall (λ c, 97 ≤ N_of_ascii c ≤ 122)%N (String.list_ascii_of_string t) →
  Client.lower s = t ↔
  Forall2 Client.same_letter (String.list_ascii_of_string s)
    (String.list_ascii_of_string t).
Proof.
  induction t as [|ct t IH]; intros [|cs s] Ht; simpl in *.
  - split; [constructor|done].
  - split; [done|]. intros H. inversion H.
  - split; [done|]. intros H. inversion H.
  - apply Forall_cons in Ht as [Hct Ht]. split.
    + intros [= Hc Hs]. constructor.
      * by apply lower_char_small.
      * by apply IH.
    + intros H. apply Forall2_cons in H as [Hc Hs]. f_equal.
      * by apply lower_char_small.
      * by apply IH.
Qed.

(** X19.  [get_mturk_client] on the name of an environment always makes a
    client of region [us-east-1], on one of the two endpoints; it is the
    sandbox endpoint exactly when the name is the word [sandbox] letter by
    letter, each letter small or capital, and the production endpoint for
    every other name. *)
Theorem get_mturk_client_endpoint (name : string) :
  ∃ c,
    Client.get_mturk_client (Client.EnvName name) = inr c ∧
    Client.region_name c = "us-east-1"%string ∧
    (Client.endpoint_url c = Client.sandbox_url ↔
     Forall2 Client.same_letter (String.list_ascii_of_string name)
       (String.list_ascii_of_string "sandbox")) ∧
    (Client.endpoint_url c ≠ Client.sandbox_url →
     Client.endpoint_url c = Client.production_url).
Proof.
  unfold Client.get_mturk_client. eexists. split; [reflexivity|].
  cbn [Client.region_name Client.endpoint_url]. split; [done|].
  rewrite <- lower_small_iff by (repeat constructor; simpl; lia).
  destruct (String.eqb_spec (Client.lower name) "sandbox") as [Heq|Hne].
  - split; [done|]. intros Hurl. done.
  - split; [|done]. split; [discriminate|done].
Qed.

(** ** The data frame of the work units *)

Lemma forallb_false_exists {A} (f : A → bool) (l : list A) :
  forallb f l = false → ∃ x, x ∈ l ∧ f x = false.
Proof.
  induction l as [|x l IH]; simpl; [done|].
  destruct (f x) eqn:Hx; simpl.
  - intros H. destruct (IH H) as (y & Hy & Hfy). exists y. split; [by right|done].
  - intros _. exists x. split; [by left|done].
Qed.

Lemma existsb_false_all {A} (f : A → bool) (l : list A) :
  existsb f l = false ↔ ∀ x, x ∈ l → f x = false.
Proof.
  induction l as [|x l IH]; simpl.
  - split; [|done]. intros _ x Hx. by apply elem_of_nil in Hx.
  - rewrite orb_false_iff, IH. split.
    + intros [Hx Hl] y Hy. apply elem_of_cons in Hy as [->|Hy]; auto.
    + intros H. split; [apply H; by left|]. intros y Hy. apply H. by right.
Qed.

(** X20.  [to_hit_df] raises [KeyError], and nothing else, exactly when one
    of the nine columns it selects is in none of the raw work units; this
    is so for the empty list, so a listing without work units makes it
    raise. *)
Theorem to_hit_df_raises_iff (hits : list Hit.raw) (e : exn) :
  (HitFrame.to_hit_df hits = Raise e ↔
   e = KeyError ∧
   ∃ has, has ∈ Hit.has_column ∧ ∀ h, h ∈ hits → has h = false) ∧
  HitFrame.to_hit_df [] = Raise KeyError.
Proof.
  split; [|reflexivity]. unfold HitFrame.to_hit_df.
  destruct (forallb (λ has, existsb has hits) Hit.has_column) eqn:Hcols.
  - split; [done|]. intros (_ & has & Hin & Hnone).
    apply existsb_false_all in Hnone.
    rewrite forallb_forall in Hcols.
    rewrite Hcols in Hnone; [done|]. by apply list_elem_of_In.
  - split.
    + intros [= <-]. split; [done|].
      apply forallb_false_exists in Hcols as (has & Hin & Hnone).
      exists has. split; [done|]. by apply existsb_false_all.
    + by intros [-> _].
Qed.

Lemma mapM_map_option {A B C} (f : B → option C) (g : A → B) (l : list A) :
  mapM f (map g l) = mapM (λ x, f (g x)) l.
Proof. induction l as [|x l IH]; simpl; [done|]. by rewrite IH. Qed.

Lemma complete_has_columns (h : Hit.raw) (row : HitDf.row) :
  Hit.complete h = Some row → ∀ has, has ∈ Hit.has_column → has h = true.
Proof.
  unfold Hit.complete. intros Hrow has Hhas.
  destruct (Hit.HITId h) eqn:?, (Hit.HITTypeId h) eqn:?, (Hit.Title h) eqn:?,
    (Hit.HITStatus h) eqn:?, (Hit.Expiration h) eqn:?, (Hit.HITReviewStatus h) eqn:?,
    (Hit.NumberOfAssignmentsPending h) eqn:?,
    (Hit.NumberOfAssignmentsAvailable h) eqn:?,
    (Hit.NumberOfAssignmentsCompleted h) eqn:?; simpl in Hrow; try discriminate Hrow.
  apply list_elem_of_In in Hhas. simpl in Hhas.
  repeat (destruct Hhas as [<-|Hhas];
          [apply bool_decide_eq_true; by eapply mk_is_Some|]).
  done.
Qed.

(** X21.  For a non-empty list of raw work units that all have the nine
    entries, [to_hit_df] returns one row per work unit, in order, without
    [NaN] cell and holding the entries of that work unit. *)
Theorem to_hit_df_complete (hits : list Hit.raw) (rows : list HitDf.row) :
  hits ≠ [] →
  mapM Hit.complete hits = Some rows →
  ∃ frame,
    HitFrame.to_hit_df hits = Return frame ∧
    length frame = length hits ∧
    mapM HitFrame.to_row frame = Some rows.
Proof.
  intros Hne Hrows. exists (map HitFrame.of_raw hits).
  split; [|split].
  - unfold HitFrame.to_hit_df.
    destruct hits as [|h hits]; [done|].
    simpl in Hrows. destruct (Hit.complete h) as [row|] eqn:Hh; [|done].
    replace (forallb _ _) with true; [done|]. symmetry.
    apply forallb_forall. intros has Hhas. simpl.
    rewrite (complete_has_columns h row Hh has); [done|]. by apply list_elem_of_In.
  - apply length_map.
  - rewrite mapM_map_option. exact Hrows.
Qed.

Lemma to_hit_df_complete_witness :
  ∃ frame,
    HitFrame.to_hit_df Samples.raw_hits = Return frame ∧
    length frame = length Samples.raw_hits ∧
    mapM HitFrame.to_row frame
      = Some [ Samples.hit "H1" "A" "zebra"; Samples.hit "H2" "B" "apple" ].
Proof.
  apply (to_hit_df_complete Samples.raw_hits
           [ Samples.hit "H1" "A" "zebra"; Samples.hit "H2" "B" "apple" ]).
  - discriminate.
  - reflexivity.
Defined.

(** ** An answer field without text of its own *)

Lemma text_values_no_text (free_text : node) :
  (∀ tag children data, free_text = Element tag children → Text data ∉ children) →
  text_values free_text = [].
Proof.
  destruct free_text as [tag children| | | |]; try done.
  intros Hno. specialize (Hno tag children). simpl.
  induction children as [|t children IH]; [done|]. simpl.
  destruct t as [| data | | |];
    try (apply IH; intros d ? Hin; eapply (Hno d); [done|by right]).
  exfalso. eapply (Hno data); [done|by left].
Qed.

(** X22.  Only the text nodes directly under the [FreeText] element are
    read.  When the single [FreeText] element has none (it is empty, or its
    content sits in a CDATA section, a comment or a nested element),
    [parse_answer] is what [json.loads] makes of the empty string. *)
Theorem parse_answer_field_without_text
    (parseString : string → result Document) (json_loads : string → result pyval)
    (assign : assignment) (xml : string) (doc : Document) (free_text : node) :
  Answer assign = Some xml →
  parseString xml = Return doc →
  getElementsByTagName "FreeText" doc = [free_text] →
  (∀ tag children data, free_text = Element tag children → Text data ∉ children) →
  Decoder.parse_answer parseString json_loads assign = json_loads "".
Proof.
  intros Hxml Hdoc Hfts Hno. unfold Decoder.parse_answer.
  rewrite Hxml. simpl. rewrite Hdoc. simpl. rewrite Hfts. simpl.
  by rewrite text_values_no_text.
Qed.

Lemma parse_answer_field_without_text_witness :
  Decoder.parse_answer Samples.parseString_cdata Samples.json_loads Samples.sub_cdata
    = Samples.json_loads "".
Proof.
  apply (parse_answer_field_without_text Samples.parseString_cdata Samples.json_loads
           Samples.sub_cdata Samples.envelope_cdata Samples.envelope_cdata_doc
           (Element "FreeText" [CDATASection "{}"])).
  - reflexivity.
  - reflexivity.
  - reflexivity.
  - intros tag children data [= <- <-] Hin.
    apply list_elem_of_In in Hin. simpl in Hin. destruct Hin as [Hc|[]].
    discriminate Hc.
Defined.
